(** * IPM documentation app: endpoint pages, detail renderer, listing filter
      and the architecture diagram's client runtime

    A shallow embedding of
    - [pages/endpoint_pages.py]          (route generator),
    - [components/endpoint_detail_renderer.py] and the badge helpers of
      [components/styles.py]             (schema renderer),
    - [pages/all_endpoints.py]           (search / method filter),
    - the script of [components/architecture_diagram.py]
      ([edgePoint], [showPopup], [hidePopup] and the hover listeners),
    followed by the properties the specification states about them.

    Conventions.
    - Python [str] values are [string]s (the UTF-8 bytes of the text).  The
      built-ins [str.lower] and [str.strip], which follow the Unicode
      character database, are parameters of the embedding (class [Py.Str]).
    - Streamlit calls are effects: a page script is a computation in the
      monad [St], which logs the calls made and ends either normally or
      interrupted ([st.stop], [st.switch_page], a Python exception).  What
      [st.Page] does with the title and the url path it is given is a
      parameter as well (class [Streamlit]).
    - JavaScript numbers are IEEE binary64 numbers ([float]), with the
      rounding, the infinities and the [NaN] of the browser's arithmetic.
    - Gallina literals below contain no double-quote character: template
      text is written with an apostrophe wherever the Python literal has a
      double quote, and [tpl] puts the double quotes back. *)

From Stdlib Require Import Ascii Floats.
From stdpp Require Import gmap strings list sorting pretty.

Local Open Scope string_scope.
Local Open Scope list_scope.
Local Open Scope Z_scope.

(* ===================================================================== *)
(** * Python strings *)
(* ===================================================================== *)

Module Py.

(** The double-quote character. *)
Definition dq : ascii := ascii_of_nat 34.

Definition requote (c : ascii) : ascii :=
  if Ascii.eqb c "'"%char then dq else c.

Fixpoint tpl (s : string) : string :=
  match s with
  | EmptyString => EmptyString
  | String c s' => String (requote c) (tpl s')
  end.

(** [str.lower()] and [str.strip()] work on Unicode text: which
    characters have a lower-case form, and which count as white space, is
    decided by the Unicode character database of the interpreter.  They are
    built-ins, not code of this repository, and enter as parameters. *)
Class Str := {
  lower : string -> string;
  strip : string -> string
}.

(** The two built-ins on ASCII text, where they can be written out.
    [ascii_lower_char]: the letters A-Z. *)
Definition ascii_lower_char (c : ascii) : ascii :=
  let n := nat_of_ascii c in
  if ((65 <=? n)%nat && (n <=? 90)%nat)%bool then ascii_of_nat (n + 32) else c.

Fixpoint ascii_lower (s : string) : string :=
  match s with
  | EmptyString => EmptyString
  | String c s' => String (ascii_lower_char c) (ascii_lower s')
  end.

(** [str.isspace] on one ASCII character: TAB, LF, VT, FF, CR,
    FS, GS, RS, US and the blank. *)
Definition ascii_isspace (c : ascii) : bool :=
  let n := nat_of_ascii c in
  (((9 <=? n)%nat && (n <=? 13)%nat) || ((28 <=? n)%nat && (n <=? 32)%nat))%bool.

(** Drop the leading characters that satisfy [drop]. *)
Fixpoint lstrip_chars (drop : ascii -> bool) (s : string) : string :=
  match s with
  | EmptyString => EmptyString
  | String c s' => if drop c then lstrip_chars drop s' else s
  end.

(** Drop the trailing characters that satisfy [drop]; a character stays
    when something that is kept follows it. *)
Fixpoint rstrip_chars (drop : ascii -> bool) (s : string) : string :=
  match s with
  | EmptyString => EmptyString
  | String c s' =>
      match rstrip_chars drop s' with
      | EmptyString => if drop c then EmptyString else String c EmptyString
      | r => String c r
      end
  end.

Definition strip_chars (drop : ascii -> bool) (s : string) : string :=
  rstrip_chars drop (lstrip_chars drop s).

Definition ascii_strip (s : string) : string := strip_chars ascii_isspace s.

(** The built-ins as they act on ASCII text: the instance at which the
    embedding is evaluated on ASCII inputs. *)
Definition ascii_text : Str := {| lower := ascii_lower; strip := ascii_strip |}.

(** [s.startswith(p)]. *)
Fixpoint startswith (p s : string) : bool :=
  match p, s with
  | EmptyString, _ => true
  | String a p', String b s' => Ascii.eqb a b && startswith p' s'
  | String _ _, EmptyString => false
  end.

(** [needle in hay]. *)
Fixpoint contains (needle hay : string) : bool :=
  startswith needle hay ||
  match hay with
  | EmptyString => false
  | String _ hay' => contains needle hay'
  end.

(** Truthiness of a string: [bool(s)]. *)
Definition nonempty (s : string) : bool :=
  match s with EmptyString => false | String _ _ => true end.

(** [''.join(parts)]. *)
Fixpoint join (parts : list string) : string :=
  match parts with
  | [] => EmptyString
  | p :: ps => p +:+ join ps
  end.

(** [sep.join(parts)]. *)
Fixpoint join_with (sep : string) (parts : list string) : string :=
  match parts with
  | [] => EmptyString
  | [p] => p
  | p :: ps => p +:+ sep +:+ join_with sep ps
  end.

(** Values that occur as fields of a request-body row. *)
Inductive value :=
| VStr (s : string)
| VBool (b : bool)
| VInt (z : Z)
| VNone.

(** [str(v)], as an f-string placeholder formats it. *)
Definition format (v : value) : string :=
  match v with
  | VStr s => s
  | VBool true => "True"
  | VBool false => "False"
  | VInt z => pretty z
  | VNone => "None"
  end.

(** [bool(v)]. *)
Definition truthy (v : value) : bool :=
  match v with
  | VStr s => nonempty s
  | VBool b => b
  | VInt z => negb (z =? 0)
  | VNone => false
  end.

Inductive exception :=
| IndexError
| StreamlitAPIException.

End Py.

(* ===================================================================== *)
(** * Streamlit scripts as computations *)
(* ===================================================================== *)

(** The calls a script makes that reach the viewer. *)
Inductive st_call :=
| Markdown (body : string) (unsafe_allow_html : bool)
| Button (label : string)
| ErrorBox (body : string).

(** What ends a script run before its last line. *)
Inductive interrupt :=
| Stop                              (* st.stop() *)
| SwitchPage (target : string)      (* st.switch_page(...) *)
| Raise (e : Py.exception).         (* an uncaught Python exception *)

Inductive outcome (A : Type) :=
| Done (a : A)
| Halt (i : interrupt).
Arguments Done {A} a.
Arguments Halt {A} i.

Definition St (A : Type) : Type := (list st_call * outcome A)%type.

Definition calls {A} (m : St A) : list st_call := fst m.
Definition result {A} (m : St A) : outcome A := snd m.

Definition st_ret {A} (a : A) : St A := ([], Done a).

Definition st_bind {A B} (m : St A) (f : A -> St B) : St B :=
  match m with
  | (l, Done a) => let '(l', r) := f a in (l ++ l', r)
  | (l, Halt i) => (l, Halt i)
  end.

#[global] Instance St_ret : MRet St := @st_ret.
#[global] Instance St_bind : MBind St := fun A B f m => st_bind m f.

Definition st_markdown (body : string) (unsafe_allow_html : bool) : St unit :=
  ([Markdown body unsafe_allow_html], Done tt).

(** [st.button(label)]: the viewer's click in this run is an input. *)
Definition st_button (label : string) (clicked : bool) : St bool :=
  ([Button label], Done clicked).

Definition st_error (body : string) : St unit := ([ErrorBox body], Done tt).
Definition st_stop {A} : St A := ([], Halt Stop).
Definition st_switch_page {A} (target : string) : St A := ([], Halt (SwitchPage target)).
Definition py_raise {A} (e : Py.exception) : St A := ([], Halt (Raise e)).

(** [for x in xs: body(x)]. *)
Fixpoint st_for {A} (xs : list A) (body : A -> St unit) : St unit :=
  match xs with
  | [] => mret tt
  | x :: xs' => body x ;; st_for xs' body
  end.

(* ===================================================================== *)
(** * The endpoint catalog (data model) *)
(* ===================================================================== *)

(** One catalog entry (a Python dict).  Keys the code reads with
    [ep["k"]] are plain fields; keys it reads with [ep.get("k", ...)] are
    optional. *)
Record EndpointRecord := {
  ep_id : string;
  ep_method : string;
  ep_path : string;
  ep_title : string;
  ep_tag : string;
  ep_subcategory : string;
  ep_summary : option string;
  ep_description_long : option string;
  ep_auth : option string;
  ep_complexity : option string;
  ep_source_file : option string;
  ep_source_line : option Z;
  ep_path_params : option (list (string * string * string));
  ep_query_params : option (list (string * string * string));
  ep_request_body : option (list (list Py.value));
  ep_response_fields : option (list (string * string * string));
  ep_response_status : option Z;
  (** a dict: the items in insertion order, the codes pairwise distinct *)
  ep_status_codes : option (list (Z * string))
}.

(** [d.get(k, default)]. *)
Definition get {A} (field : option A) (default : A) : A :=
  match field with Some v => v | None => default end.

(** Modelled from the spec: [data/endpoints.py] is not among the sources;
    its [get_endpoint_by_id] "resolves the EndpointRecord by id" in the
    catalog and yields nothing (Python [None]) when the id is absent. *)
Definition get_endpoint_by_id (ENDPOINTS : list EndpointRecord) (endpoint_id : string)
  : option EndpointRecord :=
  List.find (fun e => String.eqb (ep_id e) endpoint_id) ENDPOINTS.

(* ===================================================================== *)
(** * components/styles.py *)
(* ===================================================================== *)

Definition method_badge_html `{Py.Str} (method : string) : string :=
  let css_class := "method-" +:+ Py.lower method in
  Py.tpl "<span class='method-badge " +:+ css_class +:+ Py.tpl "'>" +:+ method +:+ "</span>".

Definition status_code_html (code : Z) : string :=
  let css_class :=
    if code <? 300 then "status-2xx"
    else if code <? 500 then "status-4xx"
    else "status-5xx" in
  Py.tpl "<span class='status-code " +:+ css_class +:+ Py.tpl "'>" +:+ pretty code +:+ "</span>".

(* ===================================================================== *)
(** * components/endpoint_detail_renderer.py *)
(* ===================================================================== *)

(** [sorted(status_codes.items())]: insertion sort on the code (the codes
    of a dict are distinct, so the description never decides). *)
Fixpoint insert_item (x : Z * string) (l : list (Z * string)) : list (Z * string) :=
  match l with
  | [] => [x]
  | y :: l' => if fst x <=? fst y then x :: l else y :: insert_item x l'
  end.

Definition sorted_items (items : list (Z * string)) : list (Z * string) :=
  fold_right insert_item [] items.

(** The generator expression of the three-column tables. *)
Definition param_row (p : string * string * string) : string :=
  let '(name, ftype, fdesc) := p in
  Py.tpl "<tr><td class='field-name'>" +:+ name +:+ "</td>"
  +:+ Py.tpl "<td class='field-type'>" +:+ ftype +:+ "</td>"
  +:+ "<td>" +:+ fdesc +:+ "</td></tr>".

Definition param_table (first_header : string) (rows : string) : string :=
  Py.tpl "<table class='schema-table'><thead><tr>"
  +:+ "<th>" +:+ first_header +:+ "</th><th>Type</th><th>Description</th>"
  +:+ "</tr></thead><tbody>" +:+ rows +:+ "</tbody></table>".

(** One pass of the request-body loop: the text appended to [rows], or the
    [IndexError] of [item[0]] / [item[1]] on a row with fewer than two
    fields. *)
Definition request_body_tr (name ftype : Py.value) (req_text : string) (fdesc : Py.value)
  : string :=
  Py.tpl "<tr><td class='field-name'>" +:+ Py.format name +:+ "</td>"
  +:+ Py.tpl "<td class='field-type'>" +:+ Py.format ftype +:+ "</td>"
  +:+ "<td>" +:+ req_text +:+ "</td>"
  +:+ "<td>" +:+ Py.format fdesc +:+ "</td></tr>".

Definition request_body_row (item : list Py.value) : St string :=
  '(name, ftype, req_text, fdesc) ←
    match item with
    | [name; ftype; required; fdesc] =>
        mret (name, ftype, if Py.truthy required then "Yes" else "No", fdesc)
    | name :: ftype :: _ => mret (name, ftype, "-", List.last item Py.VNone)
    | _ => py_raise Py.IndexError
    end;
  mret (request_body_tr name ftype req_text fdesc).

Fixpoint request_body_rows (items : list (list Py.value)) (rows : string) : St string :=
  match items with
  | [] => mret rows
  | item :: items' =>
      row ← request_body_row item;
      request_body_rows items' (rows +:+ row)
  end.

Definition request_body_table (rows : string) : string :=
  Py.tpl "<table class='schema-table'><thead><tr>"
  +:+ "<th>Field</th><th>Type</th><th>Required</th><th>Description</th>"
  +:+ "</tr></thead><tbody>" +:+ rows +:+ "</tbody></table>".

Definition status_code_row (item : Z * string) : string :=
  "<tr><td>" +:+ status_code_html (fst item) +:+ "</td><td>" +:+ snd item +:+ "</td></tr>".

Definition status_code_table (rows : string) : string :=
  Py.tpl "<table class='schema-table'><thead><tr>"
  +:+ "<th>Code</th><th>Description</th>"
  +:+ "</tr></thead><tbody>" +:+ rows +:+ "</tbody></table>".

(** The list comprehension of the related-endpoints block. *)
Definition related_endpoints (ENDPOINTS : list EndpointRecord) (ep : EndpointRecord)
  : list EndpointRecord :=
  List.filter
    (fun e => String.eqb (ep_tag e) (ep_tag ep)
              && String.eqb (ep_subcategory e) (ep_subcategory ep)
              && negb (String.eqb (ep_id e) (ep_id ep)))
    ENDPOINTS.

Definition related_line `{Py.Str} (rel : EndpointRecord) : string :=
  method_badge_html (ep_method rel) +:+ " `" +:+ ep_path rel +:+ "` — " +:+ ep_title rel.

Section Renderer.

Context `{Py.Str}.

(** [styles.GLOBAL_CSS], the style sheet text. *)
Variable GLOBAL_CSS : string.
(** [data.endpoints.ENDPOINTS], the catalog in its order. *)
Variable ENDPOINTS : list EndpointRecord.

Definition inject_global_css : St unit := st_markdown GLOBAL_CSS true.

(** # Header *)
Definition render_header (ep : EndpointRecord) : St unit :=
  let badge := method_badge_html (ep_method ep) in
  st_markdown
    (Py.tpl "<div style='margin-top:8px;'>" +:+ badge +:+ " "
     +:+ Py.tpl "<span class='endpoint-path' style='font-size:1.15rem;'>"
     +:+ ep_path ep +:+ "</span></div>") true;;
  st_markdown ("## " +:+ ep_title ep) false.

(** # Meta row *)
Definition render_meta (ep : EndpointRecord) : St unit :=
  let meta_parts := [] in
  let meta_parts :=
    if Py.nonempty (get (ep_auth ep) "")
    then meta_parts ++ [Py.tpl "<span class='auth-badge'>" +:+ get (ep_auth ep) "" +:+ "</span>"]
    else meta_parts in
  let meta_parts :=
    meta_parts ++
    [Py.tpl "<span style='font-size:0.78rem;color:#64748B;'>"
     +:+ get (ep_source_file ep) "" +:+ ":"
     +:+ get (pretty <$> ep_source_line ep) "" +:+ "</span>"] in
  st_markdown
    (Py.tpl "<div style='display:flex;gap:12px;align-items:center;flex-wrap:wrap;margin-bottom:8px;'>"
     +:+ Py.join_with " " meta_parts +:+ "</div>") true.

(** # Description *)
Definition description_text (ep : EndpointRecord) : string :=
  get (ep_description_long ep) (get (ep_summary ep) "").

Definition render_description (ep : EndpointRecord) : St unit :=
  let desc := description_text ep in
  if Py.nonempty desc then
    st_markdown "### Description" false;;
    st_markdown desc false
  else mret tt.

(** # Path parameters *)
Definition render_path_params (ep : EndpointRecord) : St unit :=
  let path_params := get (ep_path_params ep) [] in
  match path_params with
  | [] => mret tt
  | _ =>
      st_markdown "### Path Parameters" false;;
      let rows := Py.join (param_row <$> path_params) in
      st_markdown (param_table "Name" rows) true
  end.

(** # Query parameters *)
Definition render_query_params (ep : EndpointRecord) : St unit :=
  let query_params := get (ep_query_params ep) [] in
  match query_params with
  | [] => mret tt
  | _ =>
      st_markdown "### Query Parameters" false;;
      let rows := Py.join (param_row <$> query_params) in
      st_markdown (param_table "Name" rows) true
  end.

(** # Request body *)
Definition render_request_body (ep : EndpointRecord) : St unit :=
  let request_body := get (ep_request_body ep) [] in
  match request_body with
  | [] => mret tt
  | _ =>
      st_markdown "### Request Body" false;;
      rows ← request_body_rows request_body "";
      st_markdown (request_body_table rows) true
  end.

(** # Response *)
Definition render_response (ep : EndpointRecord) : St unit :=
  let response_fields := get (ep_response_fields ep) [] in
  match response_fields with
  | [] => mret tt
  | _ =>
      let resp_status := get (ep_response_status ep) 200 in
      st_markdown ("### Response (" +:+ pretty resp_status +:+ ")") false;;
      let rows := Py.join (param_row <$> response_fields) in
      st_markdown (param_table "Field" rows) true
  end.

(** # Status codes *)
Definition render_status_codes (ep : EndpointRecord) : St unit :=
  let status_codes := get (ep_status_codes ep) [] in
  match status_codes with
  | [] => mret tt
  | _ =>
      st_markdown "### Status Codes" false;;
      let rows := Py.join (status_code_row <$> sorted_items status_codes) in
      st_markdown (status_code_table rows) true
  end.

(** # Related endpoints (for complex ones) *)
Definition render_related (ep : EndpointRecord) : St unit :=
  let complexity := get (ep_complexity ep) "simple" in
  if String.eqb complexity "complex" then
    let related := related_endpoints ENDPOINTS ep in
    match related with
    | [] => mret tt
    | _ =>
        st_markdown "### Related Endpoints" false;;
        st_for related (fun rel => st_markdown (related_line rel) true)
    end
  else mret tt.

(** [render_endpoint_detail(ep)]; [back_clicked] is what the "Back"
    button returns in this run. *)
Definition render_endpoint_detail (back_clicked : bool) (ep : EndpointRecord) : St unit :=
  inject_global_css;;
  clicked ← st_button "Back to All Endpoints" back_clicked;
  (if clicked : bool then st_switch_page "pages/all_endpoints.py" else mret tt);;
  render_header ep;;
  render_meta ep;;
  st_markdown "---" false;;
  render_description ep;;
  render_path_params ep;;
  render_query_params ep;;
  render_request_body ep;;
  render_response ep;;
  render_status_codes ep;;
  render_related ep.

End Renderer.

(* ===================================================================== *)
(** * pages/endpoint_pages.py *)
(* ===================================================================== *)

(** The closure [_page] that [_make_page_fn] returns: its only free
    variable is [endpoint_id]. *)
Inductive page_fn :=
| PageFn (endpoint_id : string).

Definition _make_page_fn (endpoint_id : string) : page_fn := PageFn endpoint_id.

(** The body of the closure, run when the page is called.  The catalog and
    the style sheet are the module globals at the time of the call. *)
Definition _page `{Py.Str} (GLOBAL_CSS : string) (ENDPOINTS : list EndpointRecord)
    (back_clicked : bool) (f : page_fn) : St unit :=
  let 'PageFn endpoint_id := f in
  match get_endpoint_by_id ENDPOINTS endpoint_id with
  | None =>
      st_error "Endpoint not found.";;
      st_stop
  | Some ep => render_endpoint_detail GLOBAL_CSS ENDPOINTS back_clicked ep
  end.

(** The page object [st.Page] makes: the callable it will run, and the
    title and url path it is registered with. *)
Record Page := {
  page : page_fn;
  title : string;
  url_path : string
}.

(** [st.Page] belongs to Streamlit, not to this repository.  It checks the
    title and the url path it is given and may change them; what it does
    with them is a parameter: the title and the url path of the page
    object, or the exception it raises. *)
Class Streamlit := {
  page_attributes : string -> string -> Py.exception + (string * string)
}.

(** [st.Page(page, title=title, url_path=url_path)] with a callable. *)
Definition st_Page `{Streamlit} (page : page_fn) (title url_path : string) : St Page :=
  match page_attributes title url_path with
  | inl e => py_raise e
  | inr (title', url_path') =>
      mret {| page := page; title := title'; url_path := url_path' |}
  end.

(** The [st.Page(...)] expression of the loop body. *)
Definition endpoint_page `{Streamlit} (ep : EndpointRecord) : St Page :=
  st_Page (_make_page_fn (ep_id ep)) (ep_title ep) ("ep-" +:+ ep_id ep).

(** The [for] loop of [build_endpoint_pages], from the lists built so far;
    an exception of [st.Page] ends it. *)
Fixpoint build_loop `{Streamlit} (eps : list EndpointRecord)
    (pages : list Page) (by_id : gmap string Page) : St (list Page * gmap string Page) :=
  match eps with
  | [] => mret (pages, by_id)
  | ep :: eps' =>
      page ← endpoint_page ep;
      build_loop eps' (pages ++ [page]) (<[ep_id ep := page]> by_id)
  end.

Definition build_endpoint_pages `{Streamlit} (ENDPOINTS : list EndpointRecord)
  : St (list Page * gmap string Page) :=
  build_loop ENDPOINTS [] ∅.

(* ===================================================================== *)
(** * pages/all_endpoints.py: search and method filter *)
(* ===================================================================== *)

Section Listing.

Context `{Py.Str}.

(** The two widgets' values in this run. *)
Variable search : string.
Variable method_filter : string.

Definition search_lower : string := Py.lower (Py.strip search).

Definition haystack (ep : EndpointRecord) : string :=
  Py.lower (ep_path ep +:+ " " +:+ ep_title ep +:+ " "
            +:+ get (ep_summary ep) "" +:+ " "
            +:+ get (ep_description_long ep) "").

Definition _matches (ep : EndpointRecord) : bool :=
  if negb (String.eqb method_filter "All")
     && negb (String.eqb (ep_method ep) method_filter)
  then false
  else if Py.nonempty search_lower
  then Py.contains search_lower (haystack ep)
  else true.

Definition filtered (ENDPOINTS : list EndpointRecord) : list EndpointRecord :=
  List.filter _matches ENDPOINTS.

End Listing.

(* ===================================================================== *)
(** * components/architecture_diagram.py: the client script *)
(* ===================================================================== *)

(** JavaScript's comparisons of numbers: false whenever an operand is
    [NaN]. *)
Module Js.

Local Open Scope float_scope.

Definition gt (a b : float) : bool := b <? a.
Definition lt (a b : float) : bool := a <? b.

End Js.

Module Diagram.

Local Open Scope float_scope.

(** A [DOMRect] as [getBoundingClientRect] returns it. *)
Record rect := {
  r_left : float;
  r_top : float;
  r_width : float;
  r_height : float
}.

(** The object [edgePoint] returns. *)
Record point := {
  pt_x : float;
  pt_y : float
}.

Definition edgePoint (cx cy w h tx ty : float) : point :=
  let dx := tx - cx in
  let dy := ty - cy in
  let absDx := abs dx in
  let absDy := abs dy in
  let hw := w / 2 in
  let hh := h / 2 in
  if Js.gt (absDx * hh) (absDy * hw) then
    let sign := if Js.gt dx 0 then 1 else -1 in
    {| pt_x := cx + sign * hw;
       pt_y := cy + (dy * hw) / absDx |}
  else
    let sign := if Js.gt dy 0 then 1 else -1 in
    {| pt_x := cx + (dx * hh) / absDy;
       pt_y := cy + sign * hh |}.

(** The [left] and [top] that [showPopup] computes from the node's box
    [nr] and the diagram's box [dr]. *)
Definition popup_placement (nr dr : rect) : float * float :=
  let left := r_left nr - r_left dr + r_width nr + 12 in
  let top := r_top nr - r_top dr in
  (* Keep within diagram bounds *)
  let left := if Js.gt (left + 480) (r_width dr) then r_left nr - r_left dr - 490 else left in
  let left := if Js.lt left 0 then r_left nr - r_left dr else left in
  let top := if Js.gt (top + 400) (r_height dr) then r_height dr - 410 else top in
  let top := if Js.lt top 0 then 0 else top in
  (left, top).

(** What the script reads from the document.  Elements are named by
    their ids. *)
Record dom := {
  (** the popup element a node's [data-popup] names, if there is one *)
  data_popup : string -> option string;
  (** a node's bounding box *)
  node_rect : string -> rect;
  (** the bounding box of the nodes' parent, the diagram *)
  diagram_rect : rect
}.

(** The script's variables, the part of the document it writes, and the
    pending [setTimeout] callbacks of [hidePopup] with the time (ms) each
    falls due.  [grace_hides] is a history counter: how often the timeout
    callback has removed [visible] from a popup. *)
Record runtime := {
  activePopup : option string;
  hoverNode : option string;
  hoverPopup : bool;
  visible : gset string;
  position : gmap string (float * float);
  timers : list Z;
  grace_hides : nat
}.

Definition initial : runtime :=
  {| activePopup := None; hoverNode := None; hoverPopup := false;
     visible := ∅; position := ∅; timers := []; grace_hides := 0 |}.

Definition set_hoverNode (v : option string) (s : runtime) : runtime :=
  {| activePopup := activePopup s; hoverNode := v; hoverPopup := hoverPopup s;
     visible := visible s; position := position s; timers := timers s;
     grace_hides := grace_hides s |}.

Definition set_hoverPopup (v : bool) (s : runtime) : runtime :=
  {| activePopup := activePopup s; hoverNode := hoverNode s; hoverPopup := v;
     visible := visible s; position := position s; timers := timers s;
     grace_hides := grace_hides s |}.

Definition set_timers (v : list Z) (s : runtime) : runtime :=
  {| activePopup := activePopup s; hoverNode := hoverNode s; hoverPopup := hoverPopup s;
     visible := visible s; position := position s; timers := v;
     grace_hides := grace_hides s |}.

Definition showPopup (d : dom) (nodeEl : string) (s : runtime) : runtime :=
  match data_popup d nodeEl with
  | None => s
  | Some popup =>
      let shown :=
        match activePopup s with
        | Some a => if decide (a = popup) then visible s else visible s ∖ {[a]}
        | None => visible s
        end in
      {| activePopup := Some popup;
         hoverNode := hoverNode s;
         hoverPopup := hoverPopup s;
         visible := shown ∪ {[popup]};
         position := <[popup := popup_placement (node_rect d nodeEl) (diagram_rect d)]> (position s);
         timers := timers s;
         grace_hides := grace_hides s |}
  end.

(** The arrow function [hidePopup] hands to [setTimeout]. *)
Definition hide_callback (s : runtime) : runtime :=
  match hoverNode s, hoverPopup s, activePopup s with
  | None, false, Some a =>
      {| activePopup := None;
         hoverNode := hoverNode s;
         hoverPopup := hoverPopup s;
         visible := visible s ∖ {[a]};
         position := position s;
         timers := timers s;
         grace_hides := S (grace_hides s) |}
  | _, _, _ => s
  end.

Definition grace_delay : Z := 150%Z.

(** [hidePopup()] called at time [now]. *)
Definition hidePopup (now : Z) (s : runtime) : runtime :=
  set_timers (timers s ++ [(now + grace_delay)%Z]) s.

Inductive event :=
| NodeEnter (node : string)      (* mouseenter on a .node *)
| NodeLeave (node : string)      (* mouseleave on a .node *)
| PopupEnter (popup : string)    (* mouseenter on a .popup *)
| PopupLeave (popup : string).   (* mouseleave on a .popup *)

(** The four listeners. *)
Definition handle (d : dom) (now : Z) (e : event) (s : runtime) : runtime :=
  match e with
  | NodeEnter node => showPopup d node (set_hoverNode (Some node) s)
  | NodeLeave node => hidePopup now (set_hoverNode None s)
  | PopupEnter popup => set_hoverPopup true s
  | PopupLeave popup => hidePopup now (set_hoverPopup false s)
  end.

(** The event loop reaching time [now]: the callbacks that are due run,
    oldest first, and leave the queue. *)
Definition fire_due (now : Z) (s : runtime) : runtime :=
  let due := List.filter (fun t => (t <=? now)%Z) (timers s) in
  let later := List.filter (fun t => negb (t <=? now)%Z) (timers s) in
  fold_left (fun s' _ => hide_callback s') due (set_timers later s).

(** A run over time-stamped pointer events (times in ms, ascending). *)
Fixpoint run (d : dom) (trace : list (Z * event)) (s : runtime) : runtime :=
  match trace with
  | [] => s
  | (now, e) :: trace' => run d trace' (handle d now e (fire_due now s))
  end.

End Diagram.

(* ===================================================================== *)
(** * pages/all_endpoints.py: grouping and order of the listing *)
(* ===================================================================== *)

(** [groups.setdefault(sub, []).append(ep)] on a dict kept as its items in
    insertion order. *)
Fixpoint setdefault_append (sub : string) (ep : EndpointRecord)
    (groups : list (string * list EndpointRecord)) : list (string * list EndpointRecord) :=
  match groups with
  | [] => [(sub, [ep])]
  | (k, eps) :: rest =>
      if String.eqb k sub then (k, eps ++ [ep]) :: rest
      else (k, eps) :: setdefault_append sub ep rest
  end.

(** [_get_subcategories(endpoints)]; the key [subcategory] is present in
    every record, so the default "General" of [ep.get] is never taken. *)
Definition _get_subcategories (endpoints : list EndpointRecord)
  : list (string * list EndpointRecord) :=
  fold_left
    (fun groups ep =>
       let sub := ep_subcategory ep in
       setdefault_append sub ep groups)
    endpoints [].

Definition _method_counts (endpoints : list EndpointRecord) : gmap string nat :=
  fold_left
    (fun counts ep =>
       let m := ep_method ep in
       <[m := (get (counts !! m) 0 + 1)%nat]> counts)
    endpoints ∅.

Section ListingOrder.

(** [data.endpoints.TAG_ORDER]. *)
Variable TAG_ORDER : list string.
(** The records that passed the filters. *)
Variable filtered : list EndpointRecord.

(** The two loops that fill [present_tags]. *)
Definition present_tags : list string :=
  let present_tags :=
    fold_left
      (fun present_tags tag =>
         if existsb (fun ep => String.eqb (ep_tag ep) tag) filtered
         then present_tags ++ [tag] else present_tags)
      TAG_ORDER [] in
  (* Include any tags not in TAG_ORDER *)
  fold_left
    (fun present_tags ep =>
       if bool_decide (ep_tag ep ∈ present_tags) then present_tags
       else present_tags ++ [ep_tag ep])
    filtered present_tags.

(** What the rendering loop walks through: per tag that has records, the
    tag and its subcategory groups ([continue] skips a tag without any). *)
Definition tag_sections : list (string * list (string * list EndpointRecord)) :=
  omap
    (fun tag =>
       let tag_endpoints := List.filter (fun ep => String.eqb (ep_tag ep) tag) filtered in
       match tag_endpoints with
       | [] => None
       | _ => Some (tag, _get_subcategories tag_endpoints)
       end)
    present_tags.

(** The records in the order their cards are emitted. *)
Definition cards : list EndpointRecord :=
  mjoin ((fun section => mjoin (snd <$> snd section)) <$> tag_sections).

End ListingOrder.

(** [page_map.get(ep["id"])] behind a card's "View details" button: the
    page the script switches to, if the map has one. *)
Definition view_details_target (page_map : gmap string Page) (ep : EndpointRecord)
  : option Page :=
  page_map !! ep_id ep.

(* ===================================================================== *)
(** * components/architecture_diagram.py: popup of an actor *)
(* ===================================================================== *)




(* ===================================================================== *)
(** * components/architecture_diagram.py: drawing the arrows *)
(* ===================================================================== *)

Module Arrows.

Import Diagram.
Local Open Scope float_scope.

(** The object [getCenter] returns. *)
Record center := {
  c_x : float;
  c_y : float;
  c_w : float;
  c_h : float
}.

(** [getCenter(el)], with [r] the element's box and [p] its parent's. *)
Definition getCenter (r p : rect) : center :=
  {| c_x := r_left r - r_left p + r_width r / 2;
     c_y := r_top r - r_top p + r_height r / 2;
     c_w := r_width r;
     c_h := r_height r |}.

(** Arrow definitions: [fromId, toId, label]. *)
Definition arrows : list (string * string * string) :=
  [("n-ipm", "n-client", "creates");
   ("n-ipm", "n-access", "requests access");
   ("n-client", "n-ca", "has");
   ("n-client", "n-team", "contains");
   ("n-ca", "n-employee", "manages");
   ("n-ca", "n-team", "manages");
   ("n-team", "n-meeting", "has");
   ("n-employee", "n-fac", "can be");
   ("n-fac", "n-meeting", "creates")].

(** A child of the [svg] element: the marker definitions, or a group of
    class [arrow-g] with its line (x1, y1, x2, y2) and, when the arrow has a
    label, the text with its position. *)
Inductive svg_child :=
| Defs
| ArrowG (x1 y1 x2 y2 : float) (text : option (string * float * float)).

Definition is_arrow_g (c : svg_child) : bool :=
  match c with ArrowG _ _ _ _ _ => true | Defs => false end.

(** The body of the [forEach] of [drawArrows]: the group appended for one
    arrow, or nothing when one of its nodes is not in the document.
    [getElementById] gives a node's box; [parent] is the diagram's. *)
Definition draw_arrow (getElementById : string -> option rect) (parent : rect)
    (arrow : string * string * string) : option svg_child :=
  let '(fromId, toId, label) := arrow in
  match getElementById fromId, getElementById toId with
  | Some fromEl, Some toEl =>
      let from := getCenter fromEl parent in
      let to := getCenter toEl parent in
      let start := edgePoint (c_x from) (c_y from) (c_w from) (c_h from) (c_x to) (c_y to) in
      let end_ := edgePoint (c_x to) (c_y to) (c_w to) (c_h to) (c_x from) (c_y from) in
      Some (ArrowG (pt_x start) (pt_y start) (pt_x end_) (pt_y end_)
              (if Py.nonempty label
               then Some (label,
                          (pt_x start + pt_x end_) / 2,
                          (pt_y start + pt_y end_) / 2 - 6)
               else None))
  | _, _ => None
  end.

(** [drawArrows()] as a function of the svg element's children. *)
Definition drawArrows (getElementById : string -> option rect) (parent : rect)
    (svg : list svg_child) : list svg_child :=
  (* Clear old arrows *)
  let svg := List.filter (fun c => negb (is_arrow_g c)) svg in
  svg ++ omap (draw_arrow getElementById parent) arrows.

End Arrows.

(* ===================================================================== *)
(** * Vocabulary of the properties *)
(* ===================================================================== *)

(** The ids of a catalog, in its order. *)
Definition ids (ENDPOINTS : list EndpointRecord) : list string := ep_id <$> ENDPOINTS.

(** Streamlit keeps a record's route token: [st.Page] accepts the record's
    title with the url path [ep-{id}] and registers the page under that very
    path. *)
Definition keeps_route_token `{Streamlit} (ep : EndpointRecord) : Prop :=
  ∃ title', page_attributes (ep_title ep) ("ep-" +:+ ep_id ep)
            = inr (title', "ep-" +:+ ep_id ep).

(** The page [st.Page] makes for a record, when it makes one. *)
Definition made_page `{Streamlit} (ep : EndpointRecord) : option Page :=
  match result (endpoint_page ep) with
  | Done p => Some p
  | Halt _ => None
  end.

(** The dict the loop of [build_endpoint_pages] builds from [m] when it
    runs over the records [l]. *)
Definition by_id_of `{Streamlit} (l : list EndpointRecord) (m : gmap string Page)
  : gmap string Page :=
  fold_left
    (fun by_id ep =>
       match made_page ep with
       | Some p => <[ep_id ep := p]> by_id
       | None => by_id
       end)
    l m.

(** A [st.Page] for concrete checks, after Streamlit's: an empty title is
    replaced by the callable's name with blanks for underscores (" page" for
    [_page]) and a blank title is refused; a blank url path is refused;
    blanks and then slashes around the url path are dropped, and a url
    path with a '/' left inside is refused. *)
Definition sample_page_attributes (title url_path : string)
  : Py.exception + (string * string) :=
  let title := if Py.nonempty title then title else " page" in
  if negb (Py.nonempty (Py.ascii_strip title)) then inl Py.StreamlitAPIException
  else if negb (Py.nonempty (Py.ascii_strip url_path)) then inl Py.StreamlitAPIException
  else
    let url_path := Py.strip_chars (Ascii.eqb "/") (Py.ascii_strip url_path) in
    if Py.contains "/" url_path then inl Py.StreamlitAPIException
    else inr (title, url_path).

Definition sample_streamlit : Streamlit :=
  {| page_attributes := sample_page_attributes |}.

(** Sample data for concrete checks. *)
Module Demo.

(** A record with the mandatory keys only. *)
Definition bare (id method path title tag subcategory : string) : EndpointRecord :=
  {| ep_id := id; ep_method := method; ep_path := path; ep_title := title;
     ep_tag := tag; ep_subcategory := subcategory;
     ep_summary := None; ep_description_long := None; ep_auth := None;
     ep_complexity := None; ep_source_file := None; ep_source_line := None;
     ep_path_params := None; ep_query_params := None; ep_request_body := None;
     ep_response_fields := None; ep_response_status := None;
     ep_status_codes := None |}.

Definition with_complexity (c : string) (ep : EndpointRecord) : EndpointRecord :=
  {| ep_id := ep_id ep; ep_method := ep_method ep; ep_path := ep_path ep;
     ep_title := ep_title ep; ep_tag := ep_tag ep; ep_subcategory := ep_subcategory ep;
     ep_summary := ep_summary ep; ep_description_long := ep_description_long ep;
     ep_auth := ep_auth ep; ep_complexity := Some c;
     ep_source_file := ep_source_file ep; ep_source_line := ep_source_line ep;
     ep_path_params := ep_path_params ep; ep_query_params := ep_query_params ep;
     ep_request_body := ep_request_body ep; ep_response_fields := ep_response_fields ep;
     ep_response_status := ep_response_status ep; ep_status_codes := ep_status_codes ep |}.

(** The four records of the related-endpoints example. *)
Definition A := with_complexity "complex" (bare "A" "GET" "/meetings/a" "Alpha" "Meetings" "Analysis").
Definition B := with_complexity "simple" (bare "B" "POST" "/meetings/b" "Beta" "Meetings" "Analysis").
Definition C := with_complexity "complex" (bare "C" "GET" "/meetings/c" "Gamma" "Meetings" "Analysis").
Definition D := with_complexity "complex" (bare "D" "GET" "/meetings/d" "Delta" "Meetings" "Recording").

Definition catalog : list EndpointRecord := [A; B; C; D].

(** A second record with the id of [A]. *)
Definition A_again : EndpointRecord :=
  bare "A" "PUT" "/meetings/a" "Alpha, replaced" "Meetings" "Analysis".

(** A record whose request body has one row of each shape. *)
Definition two_shapes : EndpointRecord :=
  {| ep_id := "create"; ep_method := "POST"; ep_path := "/teams"; ep_title := "Create team";
     ep_tag := "Teams"; ep_subcategory := "Management";
     ep_summary := None; ep_description_long := None; ep_auth := None;
     ep_complexity := None; ep_source_file := None; ep_source_line := None;
     ep_path_params := None; ep_query_params := None;
     ep_request_body :=
       Some [[Py.VStr "name"; Py.VStr "str"; Py.VBool true; Py.VStr "display name"];
             [Py.VStr "note"; Py.VStr "str"; Py.VStr "free text"]];
     ep_response_fields := None; ep_response_status := None;
     ep_status_codes := None |}.

(** A record with one query parameter. *)
Definition one_query : EndpointRecord :=
  {| ep_id := "search"; ep_method := "GET"; ep_path := "/meetings"; ep_title := "Search meetings";
     ep_tag := "Meetings"; ep_subcategory := "Browse";
     ep_summary := Some "Find meetings by text."; ep_description_long := None; ep_auth := None;
     ep_complexity := None; ep_source_file := None; ep_source_line := None;
     ep_path_params := None; ep_query_params := Some [("q", "str", "text to look for")];
     ep_request_body := None;
     ep_response_fields := None; ep_response_status := None;
     ep_status_codes := None |}.

Definition ping : EndpointRecord := bare "ping" "GET" "/ping" "Ping" "Health" "General".

(** Two records whose ids are no route tokens: a '/' inside, a blank at
    the end. *)
Definition nested : EndpointRecord := bare "a/b" "GET" "/a/b" "Nested" "Health" "General".
Definition padded : EndpointRecord := bare "x " "GET" "/x" "Padded" "Health" "General".

End Demo.

(** The search contract in the specification's words: the query, compared
    without regard to case, is a substring of the concatenation of path,
    title, summary and long description; the method filter "All" accepts
    every record, another value only the records of that method; the two
    are combined with "and". *)
Definition spec_text (ep : EndpointRecord) : string :=
  ep_path ep +:+ ep_title ep +:+ get (ep_summary ep) "" +:+ get (ep_description_long ep) "".

Definition spec_matches `{Py.Str} (query method_filter : string) (ep : EndpointRecord) : bool :=
  (String.eqb method_filter "All" || String.eqb (ep_method ep) method_filter)
  && Py.contains (Py.lower query) (Py.lower (spec_text ep)).

(** The display sections of the detail view, in their order. *)
Inductive section :=
| SecHeader | SecMeta | SecDescription | SecPathParams | SecQueryParams
| SecRequestBody | SecResponse | SecStatusCodes | SecRelated.

(** The block of [render_endpoint_detail] that emits a section. *)
Definition section_block `{Py.Str} (ENDPOINTS : list EndpointRecord) (s : section)
    (ep : EndpointRecord) : St unit :=
  match s with
  | SecHeader => render_header ep
  | SecMeta => render_meta ep
  | SecDescription => render_description ep
  | SecPathParams => render_path_params ep
  | SecQueryParams => render_query_params ep
  | SecRequestBody => render_request_body ep
  | SecResponse => render_response ep
  | SecStatusCodes => render_status_codes ep
  | SecRelated => render_related ENDPOINTS ep
  end.

(** "The section's source list/field in the record is non-empty": the
    record fields each section displays, as the data model names them. *)
Definition section_source_nonempty (s : section) (ep : EndpointRecord) : bool :=
  match s with
  | SecHeader => Py.nonempty (ep_method ep) && Py.nonempty (ep_path ep)
  | SecMeta =>
      Py.nonempty (get (ep_auth ep) "")
      || Py.nonempty (get (ep_source_file ep) "")
      || bool_decide (is_Some (ep_source_line ep))
  | SecDescription => Py.nonempty (get (ep_description_long ep) "")
  | SecPathParams => negb (bool_decide (get (ep_path_params ep) [] = []))
  | SecQueryParams => negb (bool_decide (get (ep_query_params ep) [] = []))
  | SecRequestBody =>
      match get (ep_request_body ep) [] with [] => false | _ => true end
  | SecResponse => negb (bool_decide (get (ep_response_fields ep) [] = []))
  | SecStatusCodes => negb (bool_decide (get (ep_status_codes ep) [] = []))
  | SecRelated => String.eqb (get (ep_complexity ep) "simple") "complex"
  end.

(** The suppression rule read over every section: a section that makes a
    call has a non-empty source. *)
Definition emitted_only_if_sourced `{Py.Str} (ENDPOINTS : list EndpointRecord) : Prop :=
  ∀ ep s, calls (section_block ENDPOINTS s ep) ≠ [] → section_source_nonempty s ep = true.

(** The sign bit of a binary64 number, [None] for [NaN]. *)
Definition sf_sign (x : spec_float) : option bool :=
  match x with
  | S754_zero s | S754_infinity s | S754_finite s _ _ => Some s
  | S754_nan => None
  end.

Definition sf_is_zero (x : spec_float) : bool :=
  match x with S754_zero _ => true | _ => false end.

(** Each [NodeLeave] of a trace is followed, as the next event and less
    than 150 ms later, by the pointer entering that node again or entering
    a popup. *)
Fixpoint reenters_in_time (trace : list (Z * Diagram.event)) : bool :=
  match trace with
  | [] => true
  | (t0, Diagram.NodeLeave node) :: rest =>
      match rest with
      | (t1, Diagram.NodeEnter node') :: _ =>
          bool_decide (node' = node) && (t0 <=? t1) && (t1 <? t0 + Diagram.grace_delay)
          && reenters_in_time rest
      | (t1, Diagram.PopupEnter _) :: _ =>
          (t0 <=? t1) && (t1 <? t0 + Diagram.grace_delay) && reenters_in_time rest
      | _ => false
      end
  | _ :: rest => reenters_in_time rest
  end.

(** The debounce rule read over every sequence of pointer events: when
    every leave is answered by a re-entry within the grace delay, the grace
    timer never hides a popup. *)
Definition reentry_never_hides (d : Diagram.dom) : Prop :=
  ∀ trace, reenters_in_time trace = true →
           Diagram.grace_hides (Diagram.run d trace Diagram.initial) = 0%nat.

(** Sample diagram for concrete checks. *)
Module DemoDiagram.

Import Diagram.
Local Open Scope float_scope.

(** A diagram 500 px wide with a node of the minimal width, 130 px, whose
    left edge is at x = 450. *)
Definition narrow : rect :=
  {| r_left := 0; r_top := 0; r_width := 500; r_height := 620 |}.
Definition node_at_450 : rect :=
  {| r_left := 450; r_top := 30; r_width := 130; r_height := 56 |}.

(** A wide diagram with the node [n-ipm] and its popup [p-ipm]. *)
Definition wide : rect :=
  {| r_left := 0; r_top := 0; r_width := 1200; r_height := 620 |}.
Definition ipm : rect :=
  {| r_left := 24; r_top := 30; r_width := 130; r_height := 56 |}.

Definition document : dom :=
  {| data_popup := λ node, if decide (node = "n-ipm") then Some "p-ipm" else None;
     node_rect := λ _, ipm;
     diagram_rect := wide |}.

(** Enter the node; leave and come back after 100 ms; leave again 40 ms
    later and come back after 60 ms. *)
Definition twice_out_and_back : list (Z * event) :=
  [(0, NodeEnter "n-ipm");
   (1000, NodeLeave "n-ipm"); (1100, NodeEnter "n-ipm");
   (1140, NodeLeave "n-ipm"); (1200, NodeEnter "n-ipm")]%Z.

(** A very small length, 2^-600, and a very large one, 2^53. *)
Definition tiny : float := 0x1p-600.
Definition huge : float := 0x1p+53.

End DemoDiagram.

(** The pointer is over a node or over a popup. *)
Definition hovered (s : Diagram.runtime) : Prop :=
  is_Some (Diagram.hoverNode s) ∨ Diagram.hoverPopup s = true.

(** More sample data. *)
Module Demo2.


(** A record whose request body has a row of one field. *)
Definition short_row : EndpointRecord :=
  {| ep_id := "patch"; ep_method := "PATCH"; ep_path := "/teams/{team_id}";
     ep_title := "Rename team"; ep_tag := "Teams"; ep_subcategory := "Management";
     ep_summary := None; ep_description_long := None; ep_auth := None;
     ep_complexity := None; ep_source_file := None; ep_source_line := None;
     ep_path_params := None; ep_query_params := None;
     ep_request_body :=
       Some [[Py.VStr "name"; Py.VStr "str"; Py.VStr "new name"]; [Py.VStr "orphan"]];
     ep_response_fields := Some [("id", "str", "team id")]; ep_response_status := None;
     ep_status_codes := None |}.

(** Two nodes side by side in a diagram. *)
Definition boxes (id : string) : option Diagram.rect :=
  if String.eqb id "n-ipm"
  then Some {| Diagram.r_left := 20%float; Diagram.r_top := 30%float;
               Diagram.r_width := 130%float; Diagram.r_height := 56%float |}
  else if String.eqb id "n-client"
  then Some {| Diagram.r_left := 400%float; Diagram.r_top := 30%float;
               Diagram.r_width := 130%float; Diagram.r_height := 56%float |}
  else None.

End Demo2.

(** At most one popup is shown, and it is the active one. *)
Definition one_visible (s : Diagram.runtime) : Prop :=
  Diagram.visible s
  = match Diagram.activePopup s with Some p => {[p]} | None => ∅ end.

(** How often the pointer leaves a node or a popup in a trace. *)
Definition leaves (trace : list (Z * Diagram.event)) : nat :=
  length (List.filter
            (fun te => match snd te with
                       | Diagram.NodeLeave _ | Diagram.PopupLeave _ => true
                       | _ => false
                       end) trace).

(** [groups] is the grouping of the records [l] by subcategory: the keys
    are distinct, each group is non-empty and holds the records of its
    subcategory in the order of [l], every record's subcategory is a key,
    and the groups together hold each record once. *)
Definition grouped (l : list EndpointRecord) (groups : list (string * list EndpointRecord))
  : Prop :=
  NoDup groups.*1
  ∧ (∀ k eps, (k, eps) ∈ groups →
       eps ≠ [] ∧ eps = List.filter (λ e, String.eqb (ep_subcategory e) k) l)
  ∧ (∀ e, e ∈ l → ep_subcategory e ∈ groups.*1)
  ∧ mjoin groups.*2 ≡ₚ l.


(* ===================================================================== *)
(** * Properties *)
(* ===================================================================== *)

Section Properties.

(** What follows holds whatever [str.lower], [str.strip] and [st.Page]
    do. *)
Context {py_str : Py.Str} {streamlit : Streamlit}.

(** ** Scripts: the calls of a sequence *)

Lemma calls_bind {A B} (m : St A) (f : A -> St B) :
  calls (m ≫= f) =
  match result m with
  | Done a => calls m ++ calls (f a)
  | Halt _ => calls m
  end.
Proof.
  destruct m as [l [a|i]]; cbn; [|done].
  by destruct (f a).
Qed.

Lemma st_ret_bind {A B} (a : A) (f : A -> St B) : mret a ≫= f = f a.
Proof.
  unfold mret, mbind, St_ret, St_bind, st_ret, st_bind.
  by destruct (f a).
Qed.

(** A call of [m ;; k] is a call of [m] or a call of [k]. *)
Lemma in_calls_seq {A B} (m : St A) (k : St B) (c : st_call) :
  c ∈ calls (m ;; k) → c ∈ calls m ∨ c ∈ calls k.
Proof.
  rewrite calls_bind. destruct (result m); [|auto].
  rewrite elem_of_app. tauto.
Qed.

Lemma in_calls_bind {A B} (m : St A) (f : A -> St B) (c : st_call) :
  c ∈ calls (m ≫= f) → c ∈ calls m ∨ ∃ a, c ∈ calls (f a).
Proof.
  rewrite calls_bind. destruct (result m) as [a|]; [|auto].
  rewrite elem_of_app. intros [H|H]; [auto | right; by exists a].
Qed.

Lemma bind_done {A B} (m : St A) (f : A → St B) (a : A) :
  result m = Done a → m ≫= f = (calls m ++ calls (f a), result (f a)).
Proof.
  destruct m as [l r]. cbn. intros ->.
  unfold mbind, St_bind, st_bind. by destruct (f a).
Qed.

Lemma bind_halt {A B} (m : St A) (f : A → St B) (i : interrupt) :
  result m = Halt i → m ≫= f = (calls m, Halt i).
Proof. destruct m as [l r]. cbn. by intros ->. Qed.

(** ** The catalog *)

Lemma get_endpoint_by_id_absent ENDPOINTS i :
  i ∉ ids ENDPOINTS → get_endpoint_by_id ENDPOINTS i = None.
Proof.
  unfold get_endpoint_by_id, ids.
  induction ENDPOINTS as [|e l IH]; cbn; [done|].
  rewrite not_elem_of_cons. intros [Hne Hl].
  destruct (String.eqb_spec (ep_id e) i); [congruence | auto].
Qed.

Lemma get_endpoint_by_id_Some ENDPOINTS i ep :
  get_endpoint_by_id ENDPOINTS i = Some ep → ep ∈ ENDPOINTS ∧ ep_id ep = i.
Proof.
  unfold get_endpoint_by_id. intros H.
  apply find_some in H as [Hin Heq].
  split; [by apply list_elem_of_In | by apply String.eqb_eq].
Qed.

Lemma get_endpoint_by_id_unique ENDPOINTS ep :
  NoDup (ids ENDPOINTS) → ep ∈ ENDPOINTS →
  get_endpoint_by_id ENDPOINTS (ep_id ep) = Some ep.
Proof.
  unfold get_endpoint_by_id, ids.
  induction ENDPOINTS as [|e l IH]; cbn; [by rewrite elem_of_nil|].
  rewrite NoDup_cons, elem_of_cons. intros [Hnotin Hnd] [->|Hin].
  - by rewrite String.eqb_refl.
  - destruct (String.eqb_spec (ep_id e) (ep_id ep)) as [Heq|]; [|auto].
    exfalso. apply Hnotin. rewrite Heq. by apply list_elem_of_fmap_2.
Qed.

(** ** Strings *)

Lemma string_app_cons (x : ascii) (a b : string) :
  String x a +:+ b = String x (a +:+ b).
Proof. reflexivity. Qed.

Lemma string_app_assoc (a b c : string) : (a +:+ b) +:+ c = a +:+ (b +:+ c).
Proof.
  induction a as [|x a IH]; [done|].
  by rewrite !string_app_cons, IH.
Qed.

Lemma string_app_nil_r (a : string) : a +:+ "" = a.
Proof.
  induction a as [|x a IH]; [done|].
  by rewrite string_app_cons, IH.
Qed.

Lemma nonempty_true s : Py.nonempty s = true ↔ s ≠ "".
Proof. destruct s; cbn; split; congruence. Qed.

(** ** Schema renderer: the view piece by piece *)

Lemma request_body_row_ok (item : list Py.value) :
  length item = 4%nat ∨ length item = 3%nat →
  ∃ row, request_body_row item = mret row.
Proof.
  intros [H|H]; destruct item as [|a [|b [|c [|e [|? ?]]]]]; cbn in H; try lia.
  - by eexists.
  - by eexists.
Qed.

Lemma request_body_rows_ok (items : list (list Py.value)) (acc : string) :
  Forall (λ item, length item = 4%nat ∨ length item = 3%nat) items →
  ∃ rows, Forall2 (λ item row, request_body_row item = mret row) items rows
    ∧ request_body_rows items acc = mret (acc +:+ Py.join rows).
Proof.
  intros H. revert acc. induction H as [|item items Hitem _ IH]; intros acc.
  - exists []. split; [constructor|]. cbn. by rewrite string_app_nil_r.
  - destruct (request_body_row_ok item Hitem) as [row Hrow].
    destruct (IH (acc +:+ row)) as (rows & Hrows & Heq).
    exists (row :: rows). split; [by constructor|].
    cbn [request_body_rows]. rewrite Hrow. cbn [Py.join].
    rewrite st_ret_bind, <- string_app_assoc. exact Heq.
Qed.

Lemma request_body_row_degraded (name ftype : Py.value) (rest : list Py.value) :
  length rest ≠ 2%nat →
  request_body_row (name :: ftype :: rest)
  = mret (request_body_tr name ftype "-" (List.last (name :: ftype :: rest) Py.VNone)).
Proof.
  intros H. destruct rest as [|c [|e [|? ?]]]; cbn in H; try done.
Qed.

Lemma request_body_row_short (item : list Py.value) :
  (length item < 2)%nat → request_body_row item = py_raise Py.IndexError.
Proof.
  intros H. destruct item as [|a [|b rest]]; cbn in H; [done | done | lia].
Qed.

Lemma request_body_row_long (item : list Py.value) :
  (2 <= length item)%nat → ∃ row, request_body_row item = mret row.
Proof.
  intros H. destruct item as [|a [|b rest]]; cbn in H; [lia | lia |].
  destruct (decide (length rest = 2%nat)) as [Hr|Hr].
  - destruct rest as [|c [|e [|? ?]]]; cbn in Hr; try done. by eexists.
  - rewrite request_body_row_degraded by done. by eexists.
Qed.

Lemma request_body_rows_long (items : list (list Py.value)) (acc : string) :
  Forall (λ item, (2 <= length item)%nat) items →
  ∃ rows, request_body_rows items acc = mret rows.
Proof.
  intros H. revert acc. induction H as [|item items Hitem _ IH]; intros acc.
  - by eexists.
  - destruct (request_body_row_long item Hitem) as [row Hrow].
    cbn [request_body_rows]. rewrite Hrow, st_ret_bind. apply IH.
Qed.

Lemma request_body_rows_short (items : list (list Py.value)) (acc : string) :
  Exists (λ item, (length item < 2)%nat) items →
  request_body_rows items acc = py_raise Py.IndexError.
Proof.
  revert acc. induction items as [|item items IH]; intros acc H.
  - by apply Exists_nil in H.
  - cbn [request_body_rows].
    destruct (decide (length item < 2)%nat) as [Hs|Hl].
    + by rewrite request_body_row_short.
    + destruct (request_body_row_long item) as [row Hrow]; [lia|].
      rewrite Hrow, st_ret_bind. apply IH.
      apply Exists_cons in H as [H|H]; [done | exact H].
Qed.

Lemma related_endpoints_spec ENDPOINTS ep e :
  e ∈ related_endpoints ENDPOINTS ep ↔
  e ∈ ENDPOINTS ∧ ep_tag e = ep_tag ep ∧ ep_subcategory e = ep_subcategory ep
  ∧ ep_id e ≠ ep_id ep.
Proof.
  unfold related_endpoints. rewrite !list_elem_of_In, filter_In.
  rewrite !andb_true_iff, negb_true_iff, !String.eqb_eq, String.eqb_neq. tauto.
Qed.

Lemma filter_sublist_of {A} (f : A → bool) (l : list A) : List.filter f l `sublist_of` l.
Proof.
  induction l as [|x l IH]; cbn; [constructor|].
  destruct (f x); by constructor.
Qed.

Lemma st_for_markdown {A} (l : list A) (g : A → string) :
  st_for l (λ x, st_markdown (g x) true) = ((λ x, Markdown (g x) true) <$> l, Done tt).
Proof.
  induction l as [|x l IH]; cbn; [done|].
  rewrite IH. reflexivity.
Qed.

Lemma calls_request_body_row item : calls (request_body_row item) = [].
Proof. by destruct item as [|a [|b [|c [|e [|? ?]]]]]. Qed.

Lemma calls_request_body_rows items acc : calls (request_body_rows items acc) = [].
Proof.
  revert acc. induction items as [|item items IH]; intros acc; [done|].
  cbn [request_body_rows]. rewrite calls_bind, calls_request_body_row.
  destruct (result (request_body_row item)); [apply IH | done].
Qed.

(** The calls without [unsafe_allow_html] that each block can make. *)
Lemma plain_of_header ep b :
  Markdown b false ∈ calls (render_header ep) → b = "## " +:+ ep_title ep.
Proof.
  cbn. intros H. repeat (apply elem_of_cons in H as [H|H]; [by inversion H|]).
  by apply elem_of_nil in H.
Qed.

Lemma plain_of_meta ep b : Markdown b false ∉ calls (render_meta ep).
Proof.
  cbn. intros H. repeat (apply elem_of_cons in H as [H|H]; [by inversion H|]).
  by apply elem_of_nil in H.
Qed.

Lemma plain_of_description ep b :
  Markdown b false ∈ calls (render_description ep) →
  b = "### Description" ∨ b = description_text ep.
Proof.
  unfold render_description. destruct (Py.nonempty _); cbn; intros H.
  - repeat (apply elem_of_cons in H as [H|H]; [inversion H; auto|]).
    by apply elem_of_nil in H.
  - by apply elem_of_nil in H.
Qed.

Lemma plain_of_path_params ep b :
  Markdown b false ∈ calls (render_path_params ep) → b = "### Path Parameters".
Proof.
  unfold render_path_params. destruct (get _ _); cbn; intros H.
  - by apply elem_of_nil in H.
  - repeat (apply elem_of_cons in H as [H|H]; [by inversion H|]).
    by apply elem_of_nil in H.
Qed.

Lemma plain_of_query_params ep b :
  Markdown b false ∈ calls (render_query_params ep) →
  b = "### Query Parameters" ∧ get (ep_query_params ep) [] ≠ [].
Proof.
  unfold render_query_params. destruct (get _ _); cbn; intros H.
  - by apply elem_of_nil in H.
  - repeat (apply elem_of_cons in H as [H|H]; [by inversion H|]).
    by apply elem_of_nil in H.
Qed.

Lemma plain_of_request_body ep b :
  Markdown b false ∈ calls (render_request_body ep) → b = "### Request Body".
Proof.
  unfold render_request_body. destruct (get _ _) as [|item items].
  - cbn. intros H. by apply elem_of_nil in H.
  - intros [H|H]%in_calls_seq.
    + cbn in H. apply elem_of_cons in H as [H|H]; [by inversion H|].
      by apply elem_of_nil in H.
    + apply in_calls_bind in H as [H|[rows H]].
      * rewrite calls_request_body_rows in H. by apply elem_of_nil in H.
      * cbn in H. apply elem_of_cons in H as [H|H]; [by inversion H|].
        by apply elem_of_nil in H.
Qed.

Lemma plain_of_response ep b :
  Markdown b false ∈ calls (render_response ep) →
  b = "### Response (" +:+ pretty (get (ep_response_status ep) 200) +:+ ")".
Proof.
  unfold render_response. destruct (get (ep_response_fields ep) _); cbn; intros H.
  - by apply elem_of_nil in H.
  - repeat (apply elem_of_cons in H as [H|H]; [by inversion H|]).
    by apply elem_of_nil in H.
Qed.

Lemma plain_of_status_codes ep b :
  Markdown b false ∈ calls (render_status_codes ep) → b = "### Status Codes".
Proof.
  unfold render_status_codes. destruct (get _ _); cbn -[sorted_items]; intros H.
  - by apply elem_of_nil in H.
  - repeat (apply elem_of_cons in H as [H|H]; [by inversion H|]).
    by apply elem_of_nil in H.
Qed.

Lemma calls_render_related ENDPOINTS ep :
  calls (render_related ENDPOINTS ep)
  = if String.eqb (get (ep_complexity ep) "simple") "complex"
    then match related_endpoints ENDPOINTS ep with
         | [] => []
         | related => Markdown "### Related Endpoints" false
                      :: ((λ rel, Markdown (related_line rel) true) <$> related)
         end
    else [].
Proof.
  unfold render_related. destruct (String.eqb _ _); [|done].
  destruct (related_endpoints ENDPOINTS ep) as [|r rs]; [done|].
  rewrite st_for_markdown. reflexivity.
Qed.

Lemma plain_of_related ENDPOINTS ep b :
  Markdown b false ∈ calls (render_related ENDPOINTS ep) → b = "### Related Endpoints".
Proof.
  rewrite calls_render_related. destruct (String.eqb _ _).
  - destruct (related_endpoints ENDPOINTS ep) as [|r rs].
    + intros H. by apply elem_of_nil in H.
    + intros [H|H]%elem_of_cons; [by inversion H|].
      apply list_elem_of_fmap in H as (rel & Heq & _). discriminate Heq.
  - intros H. by apply elem_of_nil in H.
Qed.

(** Every call without [unsafe_allow_html] of the whole view. *)
Lemma plain_of_detail GLOBAL_CSS ENDPOINTS back_clicked ep b :
  Markdown b false ∈ calls (render_endpoint_detail GLOBAL_CSS ENDPOINTS back_clicked ep) →
  b = "## " +:+ ep_title ep ∨ b = "---"
  ∨ b = "### Description" ∨ b = description_text ep
  ∨ b = "### Path Parameters"
  ∨ (b = "### Query Parameters" ∧ get (ep_query_params ep) [] ≠ [])
  ∨ b = "### Request Body"
  ∨ b = "### Response (" +:+ pretty (get (ep_response_status ep) 200) +:+ ")"
  ∨ b = "### Status Codes"
  ∨ b = "### Related Endpoints".
Proof.
  unfold render_endpoint_detail.
  intros [H|H]%in_calls_seq.
  { cbn in H. apply elem_of_cons in H as [H|H]; [by inversion H|]. by apply elem_of_nil in H. }
  apply in_calls_bind in H as [H|[clicked H]].
  { cbn in H. apply elem_of_cons in H as [H|H]; [by inversion H|]. by apply elem_of_nil in H. }
  apply in_calls_seq in H as [H|H].
  { destruct clicked; cbn in H; by apply elem_of_nil in H. }
  apply in_calls_seq in H as [H|H]; [left; by apply plain_of_header|].
  apply in_calls_seq in H as [H|H]; [by apply plain_of_meta in H|].
  apply in_calls_seq in H as [H|H].
  { cbn in H. apply elem_of_cons in H as [H|H]; [inversion H; auto|]. by apply elem_of_nil in H. }
  apply in_calls_seq in H as [H|H].
  { apply plain_of_description in H as [H|H]; auto. }
  apply in_calls_seq in H as [H|H]; [apply plain_of_path_params in H; auto 10|].
  apply in_calls_seq in H as [H|H]; [apply plain_of_query_params in H; auto 10|].
  apply in_calls_seq in H as [H|H]; [apply plain_of_request_body in H; auto 10|].
  apply in_calls_seq in H as [H|H]; [apply plain_of_response in H; auto 10|].
  apply in_calls_seq in H as [H|H]; [apply plain_of_status_codes in H; auto 10|].
  apply plain_of_related in H; auto 10.
Qed.

Lemma heading_then_more {A} (h : string) (k : St A) : calls (st_markdown h false;; k) ≠ [].
Proof. rewrite calls_bind. cbn. by destruct (result k). Qed.

Lemma join_singleton (r : string) : Py.join [r] = r.
Proof. cbn. apply string_app_nil_r. Qed.

Lemma render_description_done ep : result (render_description ep) = Done tt.
Proof. unfold render_description. by destruct (Py.nonempty _). Qed.

Lemma render_path_params_done ep : result (render_path_params ep) = Done tt.
Proof. unfold render_path_params. by destruct (get _ _). Qed.

Lemma render_query_params_done ep : result (render_query_params ep) = Done tt.
Proof. unfold render_query_params. by destruct (get _ _). Qed.

Lemma render_response_done ep : result (render_response ep) = Done tt.
Proof. unfold render_response. by destruct (get (ep_response_fields ep) _). Qed.

Lemma render_status_codes_done ep : result (render_status_codes ep) = Done tt.
Proof. unfold render_status_codes. by destruct (get _ _). Qed.

Lemma render_related_done ENDPOINTS ep : result (render_related ENDPOINTS ep) = Done tt.
Proof.
  unfold render_related. destruct (String.eqb _ _); [|done].
  destruct (related_endpoints ENDPOINTS ep); [done|].
  by rewrite st_for_markdown.
Qed.

Lemma render_request_body_done ep :
  Forall (λ item, (2 <= length item)%nat) (get (ep_request_body ep) []) →
  result (render_request_body ep) = Done tt.
Proof.
  intros H. unfold render_request_body.
  destruct (get (ep_request_body ep) []) as [|item items] eqn:E; [done|].
  destruct (request_body_rows_long _ "" H) as [rows Hrows].
  by rewrite Hrows.
Qed.

Lemma render_request_body_raises ep :
  Exists (λ item, (length item < 2)%nat) (get (ep_request_body ep) []) →
  render_request_body ep = ([Markdown "### Request Body" false], Halt (Raise Py.IndexError)).
Proof.
  intros H. unfold render_request_body.
  destruct (get (ep_request_body ep) []) as [|item items] eqn:E.
  - by apply Exists_nil in H.
  - by rewrite request_body_rows_short.
Qed.

(** The part of the view before the request body. *)
Lemma detail_prefix GLOBAL_CSS ep (k : St unit) :
  (inject_global_css GLOBAL_CSS;;
   clicked ← st_button "Back to All Endpoints" false;
   (if clicked : bool then st_switch_page "pages/all_endpoints.py" else mret tt);;
   render_header ep;;
   render_meta ep;;
   st_markdown "---" false;;
   render_description ep;;
   render_path_params ep;;
   render_query_params ep;;
   k)
  = ([Markdown GLOBAL_CSS true; Button "Back to All Endpoints"]
     ++ calls (render_header ep) ++ calls (render_meta ep)
     ++ [Markdown "---" false]
     ++ calls (render_description ep)
     ++ calls (render_path_params ep)
     ++ calls (render_query_params ep)
     ++ calls k, result k).
Proof.
  pose proof (render_description_done ep) as H1.
  pose proof (render_path_params_done ep) as H2.
  pose proof (render_query_params_done ep) as H3.
  destruct (render_description ep) as [l1 r1], (render_path_params ep) as [l2 r2],
    (render_query_params ep) as [l3 r3], k as [lk rk].
  cbn in H1, H2, H3. subst. cbn -[render_header render_meta].
  by rewrite <- ?app_assoc.
Qed.

(** The view when it runs to its end. *)
Lemma detail_runs GLOBAL_CSS ENDPOINTS ep :
  Forall (λ item, (2 <= length item)%nat) (get (ep_request_body ep) []) →
  render_endpoint_detail GLOBAL_CSS ENDPOINTS false ep
  = ([Markdown GLOBAL_CSS true; Button "Back to All Endpoints"]
     ++ calls (render_header ep) ++ calls (render_meta ep)
     ++ [Markdown "---" false]
     ++ calls (render_description ep)
     ++ calls (render_path_params ep)
     ++ calls (render_query_params ep)
     ++ calls (render_request_body ep)
     ++ calls (render_response ep)
     ++ calls (render_status_codes ep)
     ++ calls (render_related ENDPOINTS ep), Done tt).
Proof.
  intros Hrows. unfold render_endpoint_detail. rewrite detail_prefix.
  pose proof (render_request_body_done ep Hrows) as H1.
  pose proof (render_response_done ep) as H2.
  pose proof (render_status_codes_done ep) as H3.
  pose proof (render_related_done ENDPOINTS ep) as H4.
  destruct (render_request_body ep) as [l1 r1], (render_response ep) as [l2 r2],
    (render_status_codes ep) as [l3 r3], (render_related ENDPOINTS ep) as [l4 r4].
  cbn in H1, H2, H3, H4. subst. cbn -[render_header render_meta].
  by rewrite <- ?app_assoc.
Qed.

(** The view when a request-body row has fewer than two fields. *)
Lemma detail_raises GLOBAL_CSS ENDPOINTS ep :
  Exists (λ item, (length item < 2)%nat) (get (ep_request_body ep) []) →
  render_endpoint_detail GLOBAL_CSS ENDPOINTS false ep
  = ([Markdown GLOBAL_CSS true; Button "Back to All Endpoints"]
     ++ calls (render_header ep) ++ calls (render_meta ep)
     ++ [Markdown "---" false]
     ++ calls (render_description ep)
     ++ calls (render_path_params ep)
     ++ calls (render_query_params ep)
     ++ [Markdown "### Request Body" false], Halt (Raise Py.IndexError)).
Proof.
  intros H. pose proof (render_request_body_raises ep H) as Hb.
  unfold render_endpoint_detail. rewrite detail_prefix.
  rewrite (bind_halt _ _ (Raise Py.IndexError)) by (by rewrite Hb).
  by rewrite Hb.
Qed.

(** The view begins with the style sheet, the button and the header of
    the record. *)
Lemma detail_starts GLOBAL_CSS ENDPOINTS ep :
  ∃ rest,
    calls (render_endpoint_detail GLOBAL_CSS ENDPOINTS false ep)
    = [Markdown GLOBAL_CSS true; Button "Back to All Endpoints"]
      ++ calls (render_header ep) ++ rest.
Proof.
  unfold render_endpoint_detail. rewrite detail_prefix. cbn [calls fst].
  eexists. reflexivity.
Qed.

(** ** Route generator *)

Lemma endpoint_page_made ep p : made_page ep = Some p → endpoint_page ep = mret p.
Proof.
  unfold made_page, endpoint_page, st_Page.
  destruct (page_attributes _ _) as [e|[t u]]; cbn; [done|].
  by intros [= <-].
Qed.

Lemma endpoint_page_refused ep :
  made_page ep = None → ∃ e, endpoint_page ep = py_raise e.
Proof.
  unfold made_page, endpoint_page, st_Page.
  destruct (page_attributes _ _) as [e|[t u]]; cbn; [|done].
  intros _. by exists e.
Qed.

Lemma made_page_fn ep p : made_page ep = Some p → page p = PageFn (ep_id ep).
Proof.
  unfold made_page, endpoint_page, st_Page.
  destruct (page_attributes _ _) as [e|[t u]]; cbn; [done|].
  by intros [= <-].
Qed.

Lemma keeps_route_token_made ep :
  keeps_route_token ep →
  ∃ p, made_page ep = Some p ∧ page p = PageFn (ep_id ep)
       ∧ url_path p = "ep-" +:+ ep_id ep.
Proof.
  intros [t Ht]. unfold made_page, endpoint_page, st_Page. rewrite Ht. cbn.
  by eexists.
Qed.

Lemma refused_not_made ep e :
  page_attributes (ep_title ep) ("ep-" +:+ ep_id ep) = inl e → made_page ep = None.
Proof. intros He. unfold made_page, endpoint_page, st_Page. by rewrite He. Qed.

Lemma by_id_of_cons e l (m : gmap string Page) :
  by_id_of (e :: l) m
  = by_id_of l (match made_page e with Some p => <[ep_id e := p]> m | None => m end).
Proof. reflexivity. Qed.

(** The loop when [st.Page] accepts every record. *)
Lemma build_loop_ok l pages (m : gmap string Page) :
  Forall (λ ep, is_Some (made_page ep)) l →
  build_loop l pages m = ([], Done (pages ++ omap made_page l, by_id_of l m)).
Proof.
  intros Hall. revert pages m.
  induction Hall as [|e l [p Hp] _ IH]; intros pages m.
  - cbn. by rewrite app_nil_r.
  - cbn [build_loop omap list_omap]. rewrite by_id_of_cons, Hp.
    rewrite (endpoint_page_made _ _ Hp), st_ret_bind, IH.
    by rewrite <- app_assoc.
Qed.

(** The loop when [st.Page] refuses a record. *)
Lemma build_loop_raises l pages (m : gmap string Page) :
  Exists (λ ep, made_page ep = None) l →
  ∃ e, build_loop l pages m = ([], Halt (Raise e)).
Proof.
  revert pages m. induction l as [|e l IH]; intros pages m Hex.
  - by apply Exists_nil in Hex.
  - cbn [build_loop]. destruct (made_page e) as [p|] eqn:Hp.
    + rewrite (endpoint_page_made _ _ Hp), st_ret_bind. apply IH.
      apply Exists_cons in Hex as [Hex|Hex]; [congruence | done].
    + destruct (endpoint_page_refused _ Hp) as [x ->]. by exists x.
Qed.

Lemma build_loop_done l pages (m : gmap string Page) r :
  result (build_loop l pages m) = Done r →
  Forall (λ ep, is_Some (made_page ep)) l.
Proof.
  intros Hr. apply Forall_forall. intros ep Hin.
  destruct (made_page ep) as [p|] eqn:Hp; [by eexists|]. exfalso.
  destruct (build_loop_raises l pages m) as [e He].
  - apply Exists_exists. by exists ep.
  - by rewrite He in Hr.
Qed.

Lemma made_pages l :
  Forall (λ ep, is_Some (made_page ep)) l →
  Forall2 (λ ep p, made_page ep = Some p) l (omap made_page l).
Proof.
  induction 1 as [|e l [p Hp] _ IH]; cbn [omap list_omap]; [constructor|].
  rewrite Hp. by constructor.
Qed.

Lemma by_id_of_dom l (m : gmap string Page) :
  Forall (λ ep, is_Some (made_page ep)) l →
  dom (by_id_of l m) = dom m ∪ list_to_set (ids l).
Proof.
  intros Hall. revert m. induction Hall as [|e l [p Hp] _ IH]; intros m.
  - cbn. set_solver.
  - rewrite by_id_of_cons, Hp, IH, dom_insert_L. cbn. set_solver.
Qed.

Lemma by_id_of_other l (m : gmap string Page) i :
  i ∉ ids l → by_id_of l m !! i = m !! i.
Proof.
  revert m. induction l as [|e l IH]; intros m; [done|]. cbn [ids fmap list_fmap].
  rewrite not_elem_of_cons. intros [Hne Hl].
  rewrite by_id_of_cons, IH by done.
  destruct (made_page e); [by rewrite lookup_insert_ne | done].
Qed.

Lemma by_id_of_lookup l (m : gmap string Page) i p :
  by_id_of l m !! i = Some p →
  m !! i = Some p ∨ ∃ ep, ep ∈ l ∧ ep_id ep = i ∧ made_page ep = Some p.
Proof.
  revert m. induction l as [|e l IH]; intros m; [auto|].
  rewrite by_id_of_cons. intros H. apply IH in H as [H|(ep & Hin & Hid & Hp)].
  - destruct (made_page e) as [q|] eqn:Hq; [|auto].
    destruct (decide (ep_id e = i)) as [<-|Hne].
    + rewrite lookup_insert_eq in H. injection H as <-.
      right. exists e. split; [left|done].
    + rewrite lookup_insert_ne in H by done. auto.
  - right. exists ep. split; [by right|done].
Qed.

Lemma by_id_of_unique l (m : gmap string Page) ep p :
  NoDup (ids l) → ep ∈ l → made_page ep = Some p →
  by_id_of l m !! ep_id ep = Some p.
Proof.
  revert m. induction l as [|e l IH]; intros m; [by rewrite elem_of_nil|].
  cbn [ids fmap list_fmap].
  rewrite NoDup_cons, elem_of_cons. intros [Hnotin Hnd] [->|Hin] Hp.
  - rewrite by_id_of_cons, Hp, by_id_of_other by done. apply lookup_insert_eq.
  - rewrite by_id_of_cons. by apply IH.
Qed.

(** What [build_endpoint_pages] returns, when it returns. *)
Lemma build_endpoint_pages_done ENDPOINTS pages (by_id : gmap string Page) :
  result (build_endpoint_pages ENDPOINTS) = Done (pages, by_id) →
  Forall (λ ep, is_Some (made_page ep)) ENDPOINTS
  ∧ pages = omap made_page ENDPOINTS
  ∧ by_id = by_id_of ENDPOINTS ∅.
Proof.
  unfold build_endpoint_pages. intros Hr.
  pose proof (build_loop_done _ _ _ _ Hr) as Hall.
  rewrite build_loop_ok in Hr by done. cbn in Hr. by injection Hr as <- <-.
Qed.

Lemma page_is_made (l : list EndpointRecord) p :
  p ∈ omap made_page l → ∃ ep, ep ∈ l ∧ made_page ep = Some p.
Proof. intros (ep & Hin & Hp)%list_elem_of_omap. by exists ep. Qed.

(** C1.  When Streamlit keeps every record's route token,
    [build_endpoint_pages] returns one page handle per catalog record, in
    catalog order, each holding its record's id and registered under
    [ep-{id}], and a dict whose keys are exactly the catalog's ids, each
    leading to a handle of the list with that id and route token.  With
    the ids unique (the catalog's invariant), the handle at a record's
    place in the list is the one stored under its id, and calling it renders
    that record's detail view: the style sheet and the Back button, then
    the record's method badge with its path, then its title, and so on;
    with Back clicked it switches to the listing.  When Streamlit refuses a
    record's title or route token, [build_endpoint_pages] raises and
    returns nothing. *)
Theorem build_endpoint_pages_handles (GLOBAL_CSS : string) (ENDPOINTS : list EndpointRecord) :
  (Forall keeps_route_token ENDPOINTS →
   ∃ pages by_id,
     build_endpoint_pages ENDPOINTS = ([], Done (pages, by_id))
     ∧ Forall2 (λ ep p, page p = PageFn (ep_id ep) ∧ url_path p = "ep-" +:+ ep_id ep)
         ENDPOINTS pages
     ∧ dom by_id = list_to_set (ids ENDPOINTS)
     ∧ (∀ i p, by_id !! i = Some p →
          i ∈ ids ENDPOINTS ∧ p ∈ pages ∧ page p = PageFn i ∧ url_path p = "ep-" +:+ i)
     ∧ (NoDup (ids ENDPOINTS) → ∀ k ep, ENDPOINTS !! k = Some ep →
          ∃ p, pages !! k = Some p ∧ by_id !! ep_id ep = Some p
            ∧ (∀ back_clicked,
                 _page GLOBAL_CSS ENDPOINTS back_clicked (page p)
                 = render_endpoint_detail GLOBAL_CSS ENDPOINTS back_clicked ep)
            ∧ _page GLOBAL_CSS ENDPOINTS true (page p)
              = ([Markdown GLOBAL_CSS true; Button "Back to All Endpoints"],
                 Halt (SwitchPage "pages/all_endpoints.py"))
            ∧ ∃ rest,
                calls (_page GLOBAL_CSS ENDPOINTS false (page p))
                = [Markdown GLOBAL_CSS true;
                   Button "Back to All Endpoints";
                   Markdown
                     (Py.tpl "<div style='margin-top:8px;'>"
                      +:+ (Py.tpl "<span class='method-badge "
                           +:+ ("method-" +:+ Py.lower (ep_method ep))
                           +:+ Py.tpl "'>" +:+ ep_method ep +:+ "</span>")
                      +:+ " "
                      +:+ Py.tpl "<span class='endpoint-path' style='font-size:1.15rem;'>"
                      +:+ ep_path ep +:+ "</span></div>") true;
                   Markdown ("## " +:+ ep_title ep) false]
                  ++ rest))
  ∧ (∀ ep e,
       ep ∈ ENDPOINTS →
       page_attributes (ep_title ep) ("ep-" +:+ ep_id ep) = inl e →
       ∃ e', build_endpoint_pages ENDPOINTS = ([], Halt (Raise e'))).
Proof.
  split.
  - intros Hkeep.
    assert (Hall : Forall (λ ep, is_Some (made_page ep)) ENDPOINTS).
    { eapply Forall_impl; [exact Hkeep|]. cbn.
      intros ep (p & Hp & _)%keeps_route_token_made. by exists p. }
    pose proof (made_pages _ Hall) as Hmade.
    exists (omap made_page ENDPOINTS), (by_id_of ENDPOINTS ∅).
    split; [unfold build_endpoint_pages; by rewrite build_loop_ok|].
    assert (Hfacts : ∀ ep p, ep ∈ ENDPOINTS → made_page ep = Some p →
              page p = PageFn (ep_id ep) ∧ url_path p = "ep-" +:+ ep_id ep).
    { intros ep p Hin Hp. rewrite Forall_forall in Hkeep.
      destruct (keeps_route_token_made ep (Hkeep ep Hin)) as (q & Hq & H1 & H2).
      rewrite Hp in Hq. by injection Hq as <-. }
    split.
    { clear -Hmade Hfacts. induction Hmade as [|e p l ps Hp _ IH]; [constructor|].
      constructor.
      - apply Hfacts; [left | done].
      - apply IH. intros ep q Hin. apply Hfacts. by right. }
    split; [rewrite by_id_of_dom by done; set_solver|].
    split.
    { intros i p Hp. apply by_id_of_lookup in Hp as [Hp|(ep & Hin & <- & Hp)].
      - by rewrite lookup_empty in Hp.
      - destruct (Hfacts ep p Hin Hp) as [H1 H2].
        split; [by apply list_elem_of_fmap_2|].
        split; [|done]. apply list_elem_of_omap. by exists ep. }
    intros Hnd k ep Hk.
    destruct (Forall2_lookup_l _ _ _ _ _ Hmade Hk) as (p & Hpk & Hp).
    assert (Hin : ep ∈ ENDPOINTS) by (by eapply list_elem_of_lookup_2).
    exists p. split; [done|]. split; [by apply by_id_of_unique|].
    rewrite (made_page_fn _ _ Hp).
    assert (Heq : ∀ back_clicked,
              _page GLOBAL_CSS ENDPOINTS back_clicked (PageFn (ep_id ep))
              = render_endpoint_detail GLOBAL_CSS ENDPOINTS back_clicked ep).
    { intros back_clicked. cbn. by rewrite get_endpoint_by_id_unique. }
    split; [exact Heq|]. split; [by rewrite Heq|].
    rewrite Heq. apply detail_starts.
  - intros ep e Hin He. unfold build_endpoint_pages. apply build_loop_raises.
    apply Exists_exists. exists ep. split; [done|]. by eapply refused_not_made.
Qed.

(** C2.  A page handle holds the id only and looks the record up in the
    catalog as it is when the handle is called: built from any catalog
    [BUILT_FROM], the handle of an id that the current catalog [ENDPOINTS]
    lacks shows the "Endpoint not found." error and stops the script
    ([st.stop], not an exception), with no other call made; when the
    current catalog has the id, the current record is rendered. *)
Theorem page_resolves_at_call_time
    (GLOBAL_CSS : string) (BUILT_FROM ENDPOINTS : list EndpointRecord)
    (back_clicked : bool) (pages : list Page) (by_id : gmap string Page) (p : Page) :
  result (build_endpoint_pages BUILT_FROM) = Done (pages, by_id) →
  p ∈ pages →
  ∃ i, page p = PageFn i ∧ i ∈ ids BUILT_FROM
    ∧ (i ∉ ids ENDPOINTS →
         _page GLOBAL_CSS ENDPOINTS back_clicked (page p)
         = ([ErrorBox "Endpoint not found."], Halt Stop))
    ∧ (∀ ep, get_endpoint_by_id ENDPOINTS i = Some ep →
         ep ∈ ENDPOINTS ∧ ep_id ep = i
         ∧ _page GLOBAL_CSS ENDPOINTS back_clicked (page p)
           = render_endpoint_detail GLOBAL_CSS ENDPOINTS back_clicked ep).
Proof.
  intros (_ & -> & _)%build_endpoint_pages_done (ep0 & Hin & Hp)%page_is_made.
  exists (ep_id ep0). rewrite (made_page_fn _ _ Hp).
  split; [done|]. split; [by apply list_elem_of_fmap_2|].
  split.
  - intros Habs. cbn. by rewrite get_endpoint_by_id_absent.
  - intros ep Hep. destruct (get_endpoint_by_id_Some _ _ _ Hep) as [H1 H2].
    split; [done|]. split; [done|]. cbn. by rewrite Hep.
Qed.

(** ** Schema renderer: request body *)

(** C7.  A request-body row of four fields becomes a table row of four
    cells: name, type, "Yes" or "No" by the truth value of the third
    field, description.  A row of three fields becomes a table row of four
    cells with "-" in the Required column.  A request body whose rows
    all have four or three fields renders without an exception, as the
    heading and one table that holds one row per item, in order. *)
Theorem request_body_rows_tolerant :
  (∀ name ftype required fdesc,
     request_body_row [name; ftype; required; fdesc]
     = mret (Py.tpl "<tr><td class='field-name'>" +:+ Py.format name +:+ "</td>"
             +:+ Py.tpl "<td class='field-type'>" +:+ Py.format ftype +:+ "</td>"
             +:+ "<td>" +:+ (if Py.truthy required then "Yes" else "No") +:+ "</td>"
             +:+ "<td>" +:+ Py.format fdesc +:+ "</td></tr>"))
  ∧ (∀ name ftype fdesc,
       request_body_row [name; ftype; fdesc]
       = mret (Py.tpl "<tr><td class='field-name'>" +:+ Py.format name +:+ "</td>"
               +:+ Py.tpl "<td class='field-type'>" +:+ Py.format ftype +:+ "</td>"
               +:+ "<td>" +:+ "-" +:+ "</td>"
               +:+ "<td>" +:+ Py.format fdesc +:+ "</td></tr>"))
  ∧ (∀ ep items,
       get (ep_request_body ep) [] = items → items ≠ [] →
       Forall (λ item, length item = 4%nat ∨ length item = 3%nat) items →
       ∃ rows,
         length rows = length items
         ∧ Forall2 (λ item row, request_body_row item = mret row) items rows
         ∧ render_request_body ep
           = ([Markdown "### Request Body" false;
               Markdown
                 (Py.tpl "<table class='schema-table'><thead><tr>"
                  +:+ "<th>Field</th><th>Type</th><th>Required</th><th>Description</th>"
                  +:+ "</tr></thead><tbody>" +:+ Py.join rows +:+ "</tbody></table>")
                 true], Done tt)).
Proof.
  split; [done|]. split; [done|].
  intros ep items Hget Hne Hall.
  destruct (request_body_rows_ok items "" Hall) as (rows & Hrows & Heq).
  exists rows. split; [symmetry; by eapply Forall2_length|]. split; [done|].
  unfold render_request_body. rewrite Hget.
  destruct items as [|item items']; [done|].
  rewrite Heq. reflexivity.
Qed.

(** ** Schema renderer: related endpoints *)

(** C8, as the code has it.  For a record whose complexity is "complex",
    the related endpoints are exactly the catalog records with the same tag
    and subcategory and another id, whatever their own complexity, in
    catalog order; the block renders a heading and one line per related
    record, and nothing when there is none. *)
Theorem related_endpoints_of_complex (ENDPOINTS : list EndpointRecord) (ep : EndpointRecord) :
  get (ep_complexity ep) "simple" = "complex" →
  let related := related_endpoints ENDPOINTS ep in
  (∀ e, e ∈ related ↔
        e ∈ ENDPOINTS ∧ ep_tag e = ep_tag ep ∧ ep_subcategory e = ep_subcategory ep
        ∧ ep_id e ≠ ep_id ep)
  ∧ related `sublist_of` ENDPOINTS
  ∧ render_related ENDPOINTS ep
    = (match related with
       | [] => []
       | _ => Markdown "### Related Endpoints" false
              :: ((λ rel, Markdown (related_line rel) true) <$> related)
       end, Done tt).
Proof.
  intros Hc related.
  split; [intros e; apply related_endpoints_spec|].
  split; [apply filter_sublist_of|].
  unfold render_related. rewrite Hc. cbn [String.eqb].
  change ("complex" =? "complex")%string with true. cbn iota.
  fold related. destruct related as [|r rs] eqn:E; [done|].
  rewrite st_for_markdown. reflexivity.
Qed.

(** ** Schema renderer: which sections are emitted *)

(** C6, as the code has it.  The header and the meta row are emitted for
    every record.  Each other section makes calls exactly when its source
    is non-empty, and then begins with its heading: the description when
    [description_long] (or, where that key is absent, [summary]) is a
    non-empty text; path parameters, query parameters, request body,
    response and status codes when their list is non-empty; related
    endpoints when the record is "complex" and has related records.
    When the Back button is not clicked and every request-body row has at
    least two fields, the view is the style sheet, the button, the header,
    the meta row, a rule and then what these sections emit, in order,
    nothing else.  A request-body row with fewer than two fields ends the
    view after the "Request Body" heading: the table and the sections after
    it are not emitted, whatever their sources.  With Back clicked only the
    style sheet and the button are emitted.  With no query parameters the
    whole view has no "### Query Parameters" heading (unless the description
    text is that very line); with one query parameter the table has exactly
    one row. *)
Theorem sections_emitted_iff_sourced
    (GLOBAL_CSS : string) (ENDPOINTS : list EndpointRecord) (ep : EndpointRecord) :
  calls (render_header ep) ≠ []
  ∧ calls (render_meta ep) ≠ []
  ∧ calls (render_description ep)
    = (if Py.nonempty (description_text ep)
       then [Markdown "### Description" false; Markdown (description_text ep) false]
       else [])
  ∧ calls (render_path_params ep)
    = (match get (ep_path_params ep) [] with
       | [] => []
       | params =>
           [Markdown "### Path Parameters" false;
            Markdown (param_table "Name" (Py.join (param_row <$> params))) true]
       end)
  ∧ calls (render_query_params ep)
    = (match get (ep_query_params ep) [] with
       | [] => []
       | params =>
           [Markdown "### Query Parameters" false;
            Markdown (param_table "Name" (Py.join (param_row <$> params))) true]
       end)
  ∧ (∃ after_heading,
       calls (render_request_body ep)
       = (match get (ep_request_body ep) [] with
          | [] => []
          | _ => Markdown "### Request Body" false :: after_heading
          end))
  ∧ calls (render_response ep)
    = (match get (ep_response_fields ep) [] with
       | [] => []
       | fields =>
           [Markdown ("### Response (" +:+ pretty (get (ep_response_status ep) 200) +:+ ")")
              false;
            Markdown (param_table "Field" (Py.join (param_row <$> fields))) true]
       end)
  ∧ calls (render_status_codes ep)
    = (match get (ep_status_codes ep) [] with
       | [] => []
       | codes =>
           [Markdown "### Status Codes" false;
            Markdown (status_code_table (Py.join (status_code_row <$> sorted_items codes)))
              true]
       end)
  ∧ calls (render_related ENDPOINTS ep)
    = (if String.eqb (get (ep_complexity ep) "simple") "complex"
       then match related_endpoints ENDPOINTS ep with
            | [] => []
            | related =>
                Markdown "### Related Endpoints" false
                :: ((λ rel, Markdown (related_line rel) true) <$> related)
            end
       else [])
  ∧ (Forall (λ item, (2 <= length item)%nat) (get (ep_request_body ep) []) →
     render_endpoint_detail GLOBAL_CSS ENDPOINTS false ep
     = ([Markdown GLOBAL_CSS true; Button "Back to All Endpoints"]
        ++ calls (render_header ep) ++ calls (render_meta ep)
        ++ [Markdown "---" false]
        ++ calls (render_description ep)
        ++ calls (render_path_params ep)
        ++ calls (render_query_params ep)
        ++ calls (render_request_body ep)
        ++ calls (render_response ep)
        ++ calls (render_status_codes ep)
        ++ calls (render_related ENDPOINTS ep), Done tt))
  ∧ (Exists (λ item, (length item < 2)%nat) (get (ep_request_body ep) []) →
     render_endpoint_detail GLOBAL_CSS ENDPOINTS false ep
     = ([Markdown GLOBAL_CSS true; Button "Back to All Endpoints"]
        ++ calls (render_header ep) ++ calls (render_meta ep)
        ++ [Markdown "---" false]
        ++ calls (render_description ep)
        ++ calls (render_path_params ep)
        ++ calls (render_query_params ep)
        ++ [Markdown "### Request Body" false], Halt (Raise Py.IndexError)))
  ∧ render_endpoint_detail GLOBAL_CSS ENDPOINTS true ep
    = ([Markdown GLOBAL_CSS true; Button "Back to All Endpoints"],
       Halt (SwitchPage "pages/all_endpoints.py"))
  ∧ (∀ back_clicked,
       get (ep_query_params ep) [] = [] →
       description_text ep ≠ "### Query Parameters" →
       Markdown "### Query Parameters" false
         ∉ calls (render_endpoint_detail GLOBAL_CSS ENDPOINTS back_clicked ep))
  ∧ (∀ name ftype fdesc,
       get (ep_query_params ep) [] = [(name, ftype, fdesc)] →
       calls (render_query_params ep)
       = [Markdown "### Query Parameters" false;
          Markdown
            (Py.tpl "<table class='schema-table'><thead><tr>"
             +:+ "<th>Name</th><th>Type</th><th>Description</th>"
             +:+ "</tr></thead><tbody>"
             +:+ (Py.tpl "<tr><td class='field-name'>" +:+ name +:+ "</td>"
                  +:+ Py.tpl "<td class='field-type'>" +:+ ftype +:+ "</td>"
                  +:+ "<td>" +:+ fdesc +:+ "</td></tr>")
             +:+ "</tbody></table>") true]).
Proof.
  split; [done|]. split; [done|].
  split.
  { unfold render_description. by destruct (Py.nonempty _). }
  split; [unfold render_path_params; by destruct (get _ _)|].
  split; [unfold render_query_params; by destruct (get _ _)|].
  split.
  { exists (match result (request_body_rows (get (ep_request_body ep) []) "") with
            | Done rows => [Markdown (request_body_table rows) true]
            | Halt _ => []
            end).
    unfold render_request_body. destruct (get (ep_request_body ep) []) as [|item items]; [done|].
    rewrite calls_bind. cbn [result st_markdown snd calls fst app].
    f_equal. rewrite calls_bind, calls_request_body_rows.
    by destruct (result (request_body_rows (item :: items) "")). }
  split; [unfold render_response; by destruct (get (ep_response_fields ep) _)|].
  split; [unfold render_status_codes; by destruct (get _ _)|].
  split; [apply calls_render_related|].
  split; [apply detail_runs|].
  split; [apply detail_raises|].
  split; [reflexivity|].
  split.
  { intros back_clicked Hq Hd H. apply plain_of_detail in H.
    destruct H as [H|[H|[H|[H|[H|[H|[H|[H|[H|H]]]]]]]]];
      try discriminate H.
    - by symmetry in H.
    - by destruct H. }
  intros name ftype fdesc Hq. unfold render_query_params. rewrite Hq.
  cbn [fmap list_fmap]. rewrite join_singleton. reflexivity.
Qed.

(** ** Listing: search and method filter *)

Lemma startswith_spec (p s : string) :
  Py.startswith p s = true ↔ ∃ post, s = p +:+ post.
Proof.
  revert s. induction p as [|a p IH]; intros s; cbn.
  - split; [intros _; by exists s | done].
  - destruct s as [|b s].
    + split; [done | intros [post H]; discriminate H].
    + rewrite andb_true_iff, Ascii.eqb_eq, IH. split.
      * intros [-> [post ->]]. by exists post.
      * intros [post H]. rewrite string_app_cons in H. injection H as -> ->.
        split; [done | by exists post].
Qed.

Lemma contains_spec (needle hay : string) :
  Py.contains needle hay = true ↔ ∃ pre post, hay = pre +:+ needle +:+ post.
Proof.
  split.
  - induction hay as [|c hay IH]; cbn; rewrite orb_true_iff.
    + intros [H|H]; [|done]. apply startswith_spec in H as [post H].
      by exists "", post.
    + intros [H|H].
      * apply startswith_spec in H as [post H]. by exists "", post.
      * destruct (IH H) as (pre & post & ->). by exists (String c pre), post.
  - intros (pre & post & ->). induction pre as [|c pre IH].
    + change ("" +:+ needle +:+ post) with (needle +:+ post).
      assert (Hs : Py.startswith needle (needle +:+ post) = true)
        by (apply startswith_spec; by exists post).
      destruct (needle +:+ post); cbn; cbn in Hs; by rewrite Hs.
    + rewrite string_app_cons. cbn. by rewrite IH, orb_true_r.
Qed.

(** C9, as the code has it.  A record matches exactly when the method
    filter is "All" or equals the record's method, and the query, stripped
    of surrounding white space and lower-cased, is empty or a substring of
    the lower-cased text "path title summary description_long" (the four
    fields separated by single blanks, an absent field empty).  The filtered
    listing holds exactly the catalog records that match, in catalog
    order. *)
Theorem matches_iff (search method_filter : string) (ENDPOINTS : list EndpointRecord) :
  let query := Py.lower (Py.strip search) in
  let text := λ ep,
    Py.lower (ep_path ep +:+ " " +:+ ep_title ep +:+ " "
              +:+ get (ep_summary ep) "" +:+ " "
              +:+ get (ep_description_long ep) "") in
  (∀ ep,
     _matches search method_filter ep = true ↔
     (method_filter = "All" ∨ ep_method ep = method_filter)
     ∧ (query = "" ∨ ∃ pre post, text ep = pre +:+ query +:+ post))
  ∧ (∀ ep, _matches search "All" ep = true ↔
           (query = "" ∨ ∃ pre post, text ep = pre +:+ query +:+ post))
  ∧ (∀ ep, ep ∈ filtered search method_filter ENDPOINTS ↔
           ep ∈ ENDPOINTS ∧ _matches search method_filter ep = true)
  ∧ filtered search method_filter ENDPOINTS `sublist_of` ENDPOINTS.
Proof.
  intros query text.
  assert (Hm : ∀ mf ep,
     _matches search mf ep = true ↔
     (mf = "All" ∨ ep_method ep = mf)
     ∧ (query = "" ∨ ∃ pre post, text ep = pre +:+ query +:+ post)).
  { intros mf ep. unfold _matches.
    change (search_lower search) with query. change (haystack ep) with (text ep).
    destruct (String.eqb_spec mf "All") as [HA|HA];
      destruct (String.eqb_spec (ep_method ep) mf) as [HM|HM]; cbn [negb andb].
    4: { split; [done | intros [[?|?] _]; done]. }
    all: destruct (Py.nonempty query) eqn:Hne.
    all: try (rewrite contains_spec; apply nonempty_true in Hne; split;
              [intros H; split; [auto | by right] | intros [_ [H|H]]; done]).
    all: assert (query = "")
           by (destruct query; [done | discriminate Hne]).
    all: split; [intros _; split; auto | done]. }
  split; [apply Hm|].
  split; [intros ep; rewrite Hm; split; [intros [_ H]; exact H | intros H; split; auto]|].
  split; [|apply filter_sublist_of].
  intros ep. unfold filtered. by rewrite !list_elem_of_In, filter_In.
Qed.

(** ** Diagram: where an arrow leaves a node *)

Section EdgePoint.

Import Diagram.
Local Open Scope float_scope.






Lemma binary_round_aux_sign (s : bool) (m e : Z) (l : location) :
  sf_sign (binary_round_aux prec emax s m e l) = None
  ∨ sf_sign (binary_round_aux prec emax s m e l) = Some s.
Proof.
  unfold binary_round_aux.
  destruct (shr_fexp prec emax m e l) as [mrs' e'].
  destruct (shr_fexp prec emax _ e' loc_Exact) as [mrs'' e''].
  destruct (shr_m mrs''); [by right | | by left].
  destruct (Z.leb e'' (Z.sub emax prec)); by right.
Qed.

(** The sign of a product and of a quotient. *)
Lemma SFmul_sign (x y : spec_float) (sx sy : bool) :
  sf_sign x = Some sx → sf_sign y = Some sy →
  sf_sign (SF64mul x y) = None ∨ sf_sign (SF64mul x y) = Some (xorb sx sy).
Proof.
  destruct x as [s1|s1| |s1 m1 e1], y as [s2|s2| |s2 m2 e2]; cbn;
    intros [= <-] [= <-]; auto.
  apply binary_round_aux_sign.
Qed.

Lemma SFdiv_sign (x y : spec_float) (sx sy : bool) :
  sf_sign x = Some sx → sf_sign y = Some sy →
  sf_sign (SF64div x y) = None ∨ sf_sign (SF64div x y) = Some (xorb sx sy).
Proof.
  destruct x as [s1|s1| |s1 m1 e1], y as [s2|s2| |s2 m2 e2]; cbn;
    intros [= <-] [= <-]; auto.
  destruct (SFdiv_core_binary prec emax (Z.pos m1) e1 (Z.pos m2) e2) as [[mz ez] lz].
  apply binary_round_aux_sign.
Qed.

Lemma SFmul_nan_l (y : spec_float) : SF64mul S754_nan y = S754_nan.
Proof. by destruct y. Qed.

Lemma SFmul_nan_r (x : spec_float) : SF64mul x S754_nan = S754_nan.
Proof. by destruct x. Qed.

(** A product of two numbers that are not negative is not negative. *)
Lemma SFmul_not_negative (x y : spec_float) :
  sf_sign x = None ∨ sf_sign x = Some false →
  sf_sign y = None ∨ sf_sign y = Some false →
  sf_sign (SF64mul x y) = None ∨ sf_sign (SF64mul x y) = Some false.
Proof.
  intros [Hx|Hx] [Hy|Hy].
  - left. destruct x; try done; by rewrite SFmul_nan_l.
  - left. destruct x; try done; by rewrite SFmul_nan_l.
  - left. destruct y; try done; by rewrite SFmul_nan_r.
  - by apply (SFmul_sign _ _ false false).
Qed.

Lemma SFabs_sign (x : spec_float) : sf_sign (SFabs x) = None ∨ sf_sign (SFabs x) = Some false.
Proof. destruct x; cbn; auto. Qed.

Lemma SFabs_is_zero (x : spec_float) : sf_is_zero (SFabs x) = sf_is_zero x.
Proof. by destruct x. Qed.

(** A number that is not negative is not below zero; nothing is below
    [NaN]. *)
Lemma SFltb_zero_r (x : spec_float) (s : bool) :
  sf_sign x = None ∨ sf_sign x = Some false → SFltb x (S754_zero s) = false.
Proof. destruct x as [s1|s1| |s1 m1 e1]; cbn; intros [[=]|[= ->]]; done. Qed.

Lemma SFltb_nan_r (x : spec_float) : SFltb x S754_nan = false.
Proof. by destruct x. Qed.

Lemma is_zero_spec (x : float) : is_zero x = sf_is_zero (Prim2SF x).
Proof.
  unfold is_zero. rewrite FloatAxioms.eqb_spec.
  change (Prim2SF zero) with (S754_zero false).
  by destruct (Prim2SF x) as [s|[]| |[]].
Qed.

Lemma is_nan_spec (x : float) : Prim2SF x = S754_nan → is_nan x = true.
Proof. intros Hx. unfold is_nan. by rewrite FloatAxioms.eqb_spec, Hx. Qed.

Lemma is_finite_spec (x : float) :
  Prim2SF x = S754_nan ∨ (∃ s, Prim2SF x = S754_infinity s) → is_finite x = false.
Proof.
  unfold is_finite, is_nan, is_infinity.
  rewrite !FloatAxioms.eqb_spec, FloatAxioms.abs_spec.
  change (Prim2SF infinity) with (S754_infinity false).
  intros [->|[s ->]]; [done | by destruct s].
Qed.

Lemma gt_spec (a b : float) : Js.gt a b = SFltb (Prim2SF b) (Prim2SF a).
Proof. apply FloatAxioms.ltb_spec. Qed.

(** [x > 0]: [x] is positive, finite or not. *)
Lemma gt_zero_sign (x : float) : Js.gt x 0 = true → sf_sign (Prim2SF x) = Some false.
Proof.
  rewrite gt_spec. change (Prim2SF 0) with (S754_zero false).
  by destruct (Prim2SF x) as [s|[]| |[]].
Qed.

(** [0 < x < infinity]: [x] is positive and finite. *)
Lemma positive_finite (x : float) :
  Js.gt x 0 = true → Js.lt x infinity = true →
  ∃ m e, Prim2SF x = S754_finite false m e.
Proof.
  unfold Js.lt. rewrite gt_spec, FloatAxioms.ltb_spec.
  change (Prim2SF 0) with (S754_zero false).
  change (Prim2SF infinity) with (S754_infinity false).
  destruct (Prim2SF x) as [s|[]| |[] m e]; try done. by exists m, e.
Qed.

Lemma SFmul_zero_l (s : bool) (y : spec_float) :
  sf_is_zero (SF64mul (S754_zero s) y) = true ∨ SF64mul (S754_zero s) y = S754_nan.
Proof. destruct y; cbn; auto. Qed.

(** Zero times anything is not above anything that is not negative. *)
Lemma zero_product_not_above (s : bool) (y q : spec_float) :
  sf_sign q = None ∨ sf_sign q = Some false →
  SFltb q (SF64mul (S754_zero s) y) = false.
Proof.
  intros Hq. destruct (SFmul_zero_l s y) as [Hz|Hz].
  - destruct (SF64mul (S754_zero s) y) as [s'| | |]; try done.
    by apply SFltb_zero_r.
  - rewrite Hz. apply SFltb_nan_r.
Qed.

(** Two products with a zero factor: neither is above the other. *)
Lemma zero_products_compare (s s' : bool) (x y : spec_float) :
  SFltb (SF64mul (S754_zero s) x) (SF64mul (S754_zero s') y) = false.
Proof.
  destruct (SFmul_zero_l s x) as [Hx|Hx], (SFmul_zero_l s' y) as [Hy|Hy];
    rewrite ?Hx, ?Hy, ?SFltb_nan_r; try done;
    destruct (SF64mul (S754_zero s) x), (SF64mul (S754_zero s') y); done.
Qed.

(** A division by zero gives no finite number, and adding to it gives
    none either. *)
Lemma SFdiv_by_zero (x : spec_float) :
  SF64div x (S754_zero false) = S754_nan
  ∨ ∃ s, SF64div x (S754_zero false) = S754_infinity s.
Proof. destruct x as [s|s| |s m e]; cbn; eauto. Qed.

Lemma SFadd_not_finite (x y : spec_float) :
  y = S754_nan ∨ (∃ s, y = S754_infinity s) →
  SF64add x y = S754_nan ∨ ∃ s, SF64add x y = S754_infinity s.
Proof.
  intros [->|[s ->]].
  - left. by destruct x.
  - destruct x as [s'|s'| |s' m e]; cbn; eauto.
    destruct s', s; eauto.
Qed.

Lemma half_not_negative (w : float) :
  Js.gt w 0 = true →
  sf_sign (Prim2SF (w / 2)) = None ∨ sf_sign (Prim2SF (w / 2)) = Some false.
Proof.
  intros Hw%gt_zero_sign. rewrite FloatAxioms.div_spec.
  by apply (SFdiv_sign _ _ false false).
Qed.

(** C10, as the code has it, in binary64 arithmetic.  With [w > 0] the
    branch of a vertical edge never divides by zero.  The divisor of the
    horizontal branch, [absDy], is zero exactly when [dy] is; when that
    branch is taken with [dy] zero, [x] is no finite number.  With [dx] and
    [dy] both zero the horizontal branch is taken and [x] is [NaN].  With
    [dy] zero and a finite positive half-width, the vertical branch is
    taken exactly when the rounded product [|dx|·hh] is above zero: the
    horizontal branch, and with it the division by zero, is taken whenever
    that product is rounded to zero. *)
Theorem edgePoint_division_safe (cx cy w h tx ty : float) :
  let dx := tx - cx in
  let dy := ty - cy in
  let vertical := Js.gt (abs dx * (h / 2)) (abs dy * (w / 2)) in
  (Js.gt w 0 = true → vertical = true → is_zero (abs dx) = false)
  ∧ is_zero (abs dy) = is_zero dy
  ∧ (vertical = false → is_zero dy = true →
     is_finite (pt_x (edgePoint cx cy w h tx ty)) = false)
  ∧ (is_zero dx = true → is_zero dy = true →
     vertical = false ∧ is_nan (pt_x (edgePoint cx cy w h tx ty)) = true)
  ∧ (is_zero dy = true → Js.gt (w / 2) 0 = true → Js.lt (w / 2) infinity = true →
     vertical = Js.gt (abs dx * (h / 2)) 0).
Proof.
  intros dx dy vertical. subst vertical.
  unfold edgePoint. fold dx dy. generalize dx dy. clear dx dy. intros dx dy.
  split.
  { intros Hw Ht. rewrite is_zero_spec, FloatAxioms.abs_spec.
    destruct (sf_is_zero (SFabs (Prim2SF dx))) eqn:Hz; [|done]. exfalso.
    rewrite gt_spec, !FloatAxioms.mul_spec, !FloatAxioms.abs_spec in Ht.
    destruct (SFabs (Prim2SF dx)) as [s| | |]; try done.
    rewrite zero_product_not_above in Ht; [done|].
    apply SFmul_not_negative; [apply SFabs_sign | by apply half_not_negative]. }
  split.
  { by rewrite !is_zero_spec, FloatAxioms.abs_spec, SFabs_is_zero. }
  split.
  { intros -> Hdy. cbn [pt_x]. apply is_finite_spec.
    rewrite FloatAxioms.add_spec, FloatAxioms.div_spec, FloatAxioms.abs_spec.
    rewrite is_zero_spec in Hdy.
    destruct (Prim2SF dy) as [s| | |]; try done. cbn [SFabs].
    apply SFadd_not_finite, SFdiv_by_zero. }
  split.
  { intros Hdx Hdy. rewrite is_zero_spec in Hdx, Hdy.
    assert (Ht : Js.gt (abs dx * (h / 2)) (abs dy * (w / 2)) = false).
    { rewrite gt_spec, !FloatAxioms.mul_spec, !FloatAxioms.abs_spec.
      destruct (Prim2SF dx) as [s| | |]; try done.
      destruct (Prim2SF dy) as [s'| | |]; try done. cbn [SFabs].
      apply zero_products_compare. }
    split; [exact Ht|]. rewrite Ht. cbn [pt_x]. apply is_nan_spec.
    rewrite FloatAxioms.add_spec, FloatAxioms.div_spec, FloatAxioms.mul_spec,
      FloatAxioms.abs_spec.
    destruct (Prim2SF dx) as [s| | |]; try done.
    destruct (Prim2SF dy) as [s'| | |]; try done. cbn [SFabs].
    assert (Hq : SF64div (SF64mul (S754_zero s) (Prim2SF (h / 2))) (S754_zero false)
                 = S754_nan).
    { destruct (SFmul_zero_l s (Prim2SF (h / 2))) as [Hz|Hz].
      - by destruct (SF64mul (S754_zero s) (Prim2SF (h / 2))).
      - by rewrite Hz. }
    rewrite Hq. by destruct (Prim2SF cx). }
  intros Hdy Hpos Hfin. rewrite is_zero_spec in Hdy.
  destruct (positive_finite _ Hpos Hfin) as (m & e & Hhw).
  rewrite !gt_spec, (FloatAxioms.mul_spec (abs dy)), (FloatAxioms.abs_spec dy), Hhw.
  change (Prim2SF 0) with (S754_zero false).
  by destruct (Prim2SF dy) as [s| | |].
Qed.

End EdgePoint.

(** ** Diagram: popup placement *)

Section Placement.

Import Diagram.
Local Open Scope float_scope.

(** C5.  How [showPopup] chooses [left], and what it gives in a diagram
    500 px wide for a node at x = 450 (of the minimal width, 130 px): a
    popup 12 px right of the node would end beyond the right bound, 490 px
    left of the node it would begin before the left bound, and the last
    guard then puts it at the node's own left edge, 450.  There the popup
    of the nominal 480 px, and even one of the minimal 320 px, ends beyond
    the right bound, although it would lie within the bounds at any [left]
    from 0 to 20. *)
Theorem popup_overflows_right :
  (∀ nr dr : rect,
     let node_left := r_left nr - r_left dr in
     (popup_placement nr dr).1
     = if Js.gt (node_left + r_width nr + 12 + 480) (r_width dr)
       then (if Js.lt (node_left - 490) 0 then node_left else node_left - 490)
       else (if Js.lt (node_left + r_width nr + 12) 0
             then node_left else node_left + r_width nr + 12))
  ∧ popup_placement DemoDiagram.node_at_450 DemoDiagram.narrow = (450, 30)
  ∧ Js.gt ((popup_placement DemoDiagram.node_at_450 DemoDiagram.narrow).1 + 480)
          (r_width DemoDiagram.narrow) = true
  ∧ Js.gt ((popup_placement DemoDiagram.node_at_450 DemoDiagram.narrow).1 + 320)
          (r_width DemoDiagram.narrow) = true
  ∧ Js.lt 20 0 = false
  ∧ Js.gt (20 + 480) (r_width DemoDiagram.narrow) = false.
Proof.
  split.
  { intros nr dr. cbv zeta. unfold popup_placement. cbn [fst].
    by destruct (Js.gt _ _). }
  repeat split; reflexivity.
Qed.

End Placement.

(** ** Diagram: hover-intent state machine *)

Section HoverIntent.

Import Diagram.

Lemma hide_callback_hovered s : hovered s → hide_callback s = s.
Proof.
  unfold hide_callback. intros [[n Hn]|Hp].
  - by rewrite Hn.
  - rewrite Hp. by destruct (hoverNode s).
Qed.

Lemma hide_callback_idem s : hide_callback (hide_callback s) = hide_callback s.
Proof.
  unfold hide_callback.
  destruct (hoverNode s) eqn:E1, (hoverPopup s) eqn:E2, (activePopup s) eqn:E3;
    cbn; rewrite ?E1, ?E2, ?E3; reflexivity.
Qed.

(** However many callbacks are due, the effect is that of one. *)
Lemma callbacks_once (due : list Z) (s : runtime) :
  fold_left (λ s' _, hide_callback s') due s
  = match due with [] => s | _ => hide_callback s end.
Proof.
  destruct due as [|t due]; [done|]. cbn.
  induction due as [|t' due IH]; [done|].
  cbn. by rewrite hide_callback_idem.
Qed.

Lemma fire_due_unfold (now : Z) (s : runtime) :
  fire_due now s
  = let later := List.filter (λ t, negb (t <=? now)%Z) (timers s) in
    match List.filter (λ t, (t <=? now)%Z) (timers s) with
    | [] => set_timers later s
    | _ => hide_callback (set_timers later s)
    end.
Proof. unfold fire_due. by rewrite callbacks_once. Qed.

Lemma fire_due_hovered (now : Z) (s : runtime) :
  hovered s →
  fire_due now s = set_timers (List.filter (λ t, negb (t <=? now)%Z) (timers s)) s.
Proof.
  intros H. rewrite fire_due_unfold. cbv zeta.
  destruct (List.filter _ (timers s)); [done|].
  by apply hide_callback_hovered.
Qed.

Lemma filter_none_due (now : Z) (l : list Z) :
  Forall (λ due, (now < due)%Z) l →
  List.filter (λ t, (t <=? now)%Z) l = []
  ∧ List.filter (λ t, negb (t <=? now)%Z) l = l.
Proof.
  induction 1 as [|t l Ht _ [IH1 IH2]]; [done|].
  cbn. destruct (Z.leb_spec t now); [lia|]. cbn. by rewrite IH1, IH2.
Qed.

Lemma filter_later_after (t0 t1 : Z) (l : list Z) :
  Forall (λ due, (due <= t0 ∨ t1 < due)%Z) l →
  Forall (λ due, (t1 < due)%Z) (List.filter (λ t, negb (t <=? t0)%Z) l).
Proof.
  induction 1 as [|t l Ht _ IH]; cbn; [constructor|].
  destruct (Z.leb_spec t t0); cbn; [done|]. constructor; [lia | done].
Qed.

Lemma set_timers_id s : set_timers (timers s) s = s.
Proof. by destruct s. Qed.

Lemma fire_due_none_due (now : Z) (s : runtime) :
  Forall (λ due, (now < due)%Z) (timers s) → fire_due now s = s.
Proof.
  intros [H1 H2]%filter_none_due. rewrite fire_due_unfold. cbv zeta.
  rewrite H1, H2. apply set_timers_id.
Qed.

Lemma showPopup_timers d node s : timers (showPopup d node s) = timers s.
Proof. unfold showPopup. by destruct (data_popup d node). Qed.

(** C4, as the code has it.  Each leave, of a node or of a popup, starts a
    timer of 150 ms; an enter starts none and cancels none.  The callback
    of a timer acts on the hover state it finds: with a node or a popup
    hovered it changes nothing, and it hides the active popup exactly when
    nothing is hovered.  So (1) when the pointer leaves a node or a popup
    and enters the node or its popup within the grace delay, and no
    callback of an earlier leave falls due in between, the popup is not
    hidden then or at any later time while the pointer stays; (2) when the
    pointer leaves a node or a popup, nothing else being hovered, and
    nothing is entered, the popup is hidden once more than 150 ms have
    passed, and the count of hides has grown by exactly one whenever it is
    looked at after that. *)
Theorem hover_intent (d : dom) :
  grace_delay = 150%Z
  ∧ (∀ s now node, timers (handle d now (NodeLeave node) s) = timers s ++ [(now + 150)%Z])
  ∧ (∀ s now popup, timers (handle d now (PopupLeave popup) s) = timers s ++ [(now + 150)%Z])
  ∧ (∀ s now node, timers (handle d now (NodeEnter node) s) = timers s)
  ∧ (∀ s now popup, timers (handle d now (PopupEnter popup) s) = timers s)
  ∧ (∀ s, hovered s → hide_callback s = s)
  ∧ (∀ s, grace_hides (hide_callback s) ≠ grace_hides s ↔
          hoverNode s = None ∧ hoverPopup s = false ∧ is_Some (activePopup s))
  ∧ (∀ s leave node popup re t0 t1 t2,
       data_popup d node = Some popup →
       hovered s → activePopup s = Some popup → popup ∈ visible s →
       (∃ n, leave = NodeLeave n) ∨ (∃ q, leave = PopupLeave q) →
       re = NodeEnter node ∨ re = PopupEnter popup →
       (t0 <= t1 < t0 + grace_delay)%Z → (t1 <= t2)%Z →
       Forall (λ due, (due <= t0 ∨ t1 < due)%Z) (timers s) →
       let s' := fire_due t2 (run d [(t0, leave); (t1, re)] s) in
       activePopup s' = Some popup ∧ popup ∈ visible s'
       ∧ grace_hides s' = grace_hides s)
  ∧ (∀ s leave popup t0 t,
       activePopup s = Some popup →
       ((∃ n, leave = NodeLeave n) ∧ is_Some (hoverNode s) ∧ hoverPopup s = false)
       ∨ ((∃ q, leave = PopupLeave q) ∧ hoverNode s = None ∧ hoverPopup s = true) →
       (t0 + grace_delay < t)%Z →
       let s' := fire_due t (run d [(t0, leave)] s) in
       activePopup s' = None ∧ (popup ∉ visible s')
       ∧ grace_hides s' = S (grace_hides s)).
Proof.
  split; [reflexivity|]. split; [reflexivity|]. split; [reflexivity|].
  split; [intros s now node; cbn [handle]; by rewrite showPopup_timers|].
  split; [reflexivity|].
  split; [apply hide_callback_hovered|].
  split.
  { intros s. unfold hide_callback.
    destruct (hoverNode s), (hoverPopup s), (activePopup s); cbn;
      (split; [intros H | intros (H1 & H2 & H3)]);
      try congruence; try (by destruct H3); try lia.
    repeat split; eauto. }
  split.
  { intros s leave node popup re t0 t1 t2 Hd Hh Ha Hv Hleave Hre [Ht0 Ht1] Ht2 Hdue s'.
    subst s'. cbn [run].
    rewrite (fire_due_hovered t0 s) by done.
    set (later := List.filter (λ t, negb (t <=? t0)%Z) (timers s)).
    assert (Hlater : Forall (λ due, (t1 < due)%Z) (later ++ [(t0 + grace_delay)%Z])).
    { apply Forall_app. split; [by apply filter_later_after|].
      constructor; [lia | constructor]. }
    assert (Hafter :
      fire_due t1 (handle d t0 leave (set_timers later s))
      = handle d t0 leave (set_timers later s)).
    { apply fire_due_none_due.
      destruct Hleave as [[n ->]|[q ->]]; destruct s; exact Hlater. }
    rewrite Hafter. clear Hafter Hlater Hh.
    destruct s as [ap hn hp vis pos tm gh]. cbn in Ha, Hv. subst ap.
    destruct Hleave as [[n ->]|[q ->]]; destruct Hre as [-> | ->]; cbn [handle].
    - unfold showPopup. cbn -[fire_due]. rewrite Hd. cbn -[fire_due].
      rewrite decide_True by done.
      rewrite fire_due_hovered by (left; cbn; eauto). cbn.
      split; [done|]. split; [set_solver | done].
    - rewrite fire_due_hovered by (right; reflexivity). cbn. done.
    - unfold showPopup. cbn -[fire_due]. rewrite Hd. cbn -[fire_due].
      rewrite decide_True by done.
      rewrite fire_due_hovered by (left; cbn; eauto). cbn.
      split; [done|]. split; [set_solver | done].
    - rewrite fire_due_hovered by (right; reflexivity). cbn. done. }
  intros s leave popup t0 t Ha Hleave Ht s'. subst s'. cbn [run].
  assert (Hh : hovered s).
  { destruct Hleave as [(_ & Hn & _)|(_ & _ & Hp)]; [by left | by right]. }
  rewrite (fire_due_hovered t0 s) by done. clear Hh.
  destruct s as [ap hn hp vis pos tm gh]. cbn in Ha, Hleave. subst ap.
  destruct Hleave as [([n ->] & Hn & ->)|([q ->] & -> & ->)].
  - rewrite fire_due_unfold. cbn -[Z.add].
    rewrite !List.filter_app. cbn -[Z.add].
    destruct (Z.leb_spec (t0 + grace_delay) t) as [_|Hlt]; [|lia].
    cbn. destruct (List.filter _ _); cbn; (split; [done|]; split; [set_solver | done]).
  - rewrite fire_due_unfold. cbn -[Z.add].
    rewrite !List.filter_app. cbn -[Z.add].
    destruct (Z.leb_spec (t0 + grace_delay) t) as [_|Hlt]; [|lia].
    cbn. destruct (List.filter _ _); cbn; (split; [done|]; split; [set_solver | done]).
Qed.

End HoverIntent.

(* ===================================================================== *)
(** * Further properties of the code *)
(* ===================================================================== *)

(** ** Schema renderer *)




(** X2.  The sections come in one fixed order.  When the Back button is not
    clicked and every request-body row has at least two fields, the view
    runs to its end and its calls are the style sheet, the button, then the
    calls of header, meta row, a rule, description, path parameters, query
    parameters, request body, response, status codes and related endpoints,
    in that order.  When the Back button is clicked, nothing but the style
    sheet and the button is emitted and the script switches to the
    listing page. *)
Theorem detail_sections_in_order
    (GLOBAL_CSS : string) (ENDPOINTS : list EndpointRecord) (ep : EndpointRecord) :
  render_endpoint_detail GLOBAL_CSS ENDPOINTS true ep
  = ([Markdown GLOBAL_CSS true; Button "Back to All Endpoints"],
     Halt (SwitchPage "pages/all_endpoints.py"))
  ∧ (Forall (λ item, (2 <= length item)%nat) (get (ep_request_body ep) []) →
     render_endpoint_detail GLOBAL_CSS ENDPOINTS false ep
     = ([Markdown GLOBAL_CSS true; Button "Back to All Endpoints"]
        ++ calls (render_header ep) ++ calls (render_meta ep)
        ++ [Markdown "---" false]
        ++ calls (render_description ep)
        ++ calls (render_path_params ep)
        ++ calls (render_query_params ep)
        ++ calls (render_request_body ep)
        ++ calls (render_response ep)
        ++ calls (render_status_codes ep)
        ++ calls (render_related ENDPOINTS ep), Done tt)).
Proof. split; [reflexivity | apply detail_runs]. Qed.

(** X3.  Request-body rows of other lengths.  A row with fewer than two
    fields makes the view fail: the "Request Body" heading is already
    emitted, [item[0]] or [item[1]] raises [IndexError], and neither the
    table nor any later section is rendered.  A row of two fields, or of
    five or more, is rendered like the three-field form: first field, second
    field, "-", last field (so a two-field row repeats its type as the
    description). *)
Theorem malformed_request_body_rows
    (GLOBAL_CSS : string) (ENDPOINTS : list EndpointRecord) (ep : EndpointRecord) :
  (∀ name ftype rest,
     length rest ≠ 2%nat →
     request_body_row (name :: ftype :: rest)
     = mret (request_body_tr name ftype "-" (List.last (name :: ftype :: rest) Py.VNone)))
  ∧ (∀ name ftype,
       request_body_row [name; ftype] = mret (request_body_tr name ftype "-" ftype))
  ∧ (Exists (λ item, (length item < 2)%nat) (get (ep_request_body ep) []) →
     render_request_body ep
     = ([Markdown "### Request Body" false], Halt (Raise Py.IndexError))
     ∧ render_endpoint_detail GLOBAL_CSS ENDPOINTS false ep
       = ([Markdown GLOBAL_CSS true; Button "Back to All Endpoints"]
          ++ calls (render_header ep) ++ calls (render_meta ep)
          ++ [Markdown "---" false]
          ++ calls (render_description ep)
          ++ calls (render_path_params ep)
          ++ calls (render_query_params ep)
          ++ [Markdown "### Request Body" false], Halt (Raise Py.IndexError))).
Proof.
  split; [apply request_body_row_degraded|]. split; [done|].
  intros H. split; [by apply render_request_body_raises | by apply detail_raises].
Qed.

(** X4.  Among the records the views list as related, "related" is
    symmetric only between complex records.  If [b] is in the list that the
    view of a catalog record [a] iterates, then [a] is in the list of [b];
    the view of [b] shows the line of [a] when [b] is complex, and shows no
    related endpoints at all when [b] is not.  No record with the id of [a]
    is listed for [a]. *)
Theorem related_endpoints_symmetric (ENDPOINTS : list EndpointRecord) (a b : EndpointRecord) :
  a ∈ ENDPOINTS →
  b ∈ related_endpoints ENDPOINTS a →
  a ∈ related_endpoints ENDPOINTS b
  ∧ (get (ep_complexity b) "simple" = "complex" →
     Markdown (related_line a) true ∈ calls (render_related ENDPOINTS b))
  ∧ (get (ep_complexity b) "simple" ≠ "complex" →
     calls (render_related ENDPOINTS b) = [])
  ∧ ∀ e, e ∈ related_endpoints ENDPOINTS a → ep_id e ≠ ep_id a.
Proof.
  intros Ha Hb. apply related_endpoints_spec in Hb as (Hin & Ht & Hs & Hi).
  assert (Hab : a ∈ related_endpoints ENDPOINTS b).
  { apply related_endpoints_spec. by repeat split. }
  split; [done|]. split; [|split].
  - intros Hc. rewrite calls_render_related, Hc.
    change ("complex" =? "complex")%string with true. cbn iota.
    destruct (related_endpoints ENDPOINTS b) as [|r rs] eqn:E.
    + by apply elem_of_nil in Hab.
    + right. by apply (list_elem_of_fmap_2 (λ rel, Markdown (related_line rel) true)).
  - intros Hc. rewrite calls_render_related.
    by destruct (String.eqb_spec (get (ep_complexity b) "simple") "complex").
  - intros e He. by apply related_endpoints_spec in He as (_ & _ & _ & H).
Qed.

(** ** Route generator *)

Lemma last_filter_cons {A} (f : A → bool) (x : A) (l : list A) :
  last (List.filter f (x :: l))
  = match last (List.filter f l) with
    | Some y => Some y
    | None => if f x then Some x else None
    end.
Proof.
  cbn. destruct (f x); [|by destruct (last _)].
  destruct (List.filter f l) as [|y l'] eqn:E; [done|].
  rewrite last_cons. by destruct (last (y :: l')) eqn:E'.
Qed.

Lemma by_id_of_last l (m : gmap string Page) i :
  Forall (λ ep, is_Some (made_page ep)) l →
  by_id_of l m !! i
  = match last (List.filter (λ e, String.eqb (ep_id e) i) l) with
    | Some e => made_page e
    | None => m !! i
    end.
Proof.
  intros Hall. revert m. induction Hall as [|e l [p Hp] _ IH]; intros m; [done|].
  rewrite last_filter_cons, by_id_of_cons, Hp, IH.
  destruct (last _); [done|].
  destruct (String.eqb_spec (ep_id e) i) as [->|Hne].
  - by rewrite lookup_insert_eq.
  - by rewrite lookup_insert_ne.
Qed.

(** X6.  When ids repeat in the catalog the dict keeps the last one: the
    page stored under an id is the page made for the last catalog record
    with that id, while the page list still has one page per record. *)
Theorem by_id_keeps_last (ENDPOINTS : list EndpointRecord)
    (pages : list Page) (by_id : gmap string Page) (i : string) :
  result (build_endpoint_pages ENDPOINTS) = Done (pages, by_id) →
  by_id !! i = last (List.filter (λ e, String.eqb (ep_id e) i) ENDPOINTS) ≫= made_page
  ∧ length pages = length ENDPOINTS.
Proof.
  intros (Hall & -> & ->)%build_endpoint_pages_done. split.
  - rewrite by_id_of_last, lookup_empty by done. by destruct (last _).
  - symmetry. eapply Forall2_length, made_pages, Hall.
Qed.

(** ** Listing: counts, groups and order *)

Lemma method_counts_fold (l : list EndpointRecord) (counts : gmap string nat) (m : string) :
  fold_left
    (λ counts ep, <[ep_method ep := (get (counts !! ep_method ep) 0 + 1)%nat]> counts)
    l counts !! m
  = match length (List.filter (λ ep, String.eqb (ep_method ep) m) l) with
    | O => counts !! m
    | n => Some (get (counts !! m) 0 + n)%nat
    end.
Proof.
  revert counts. induction l as [|e l IH]; intros counts; [done|].
  cbn [fold_left List.filter]. rewrite IH.
  destruct (String.eqb_spec (ep_method e) m) as [->|Hne].
  - rewrite lookup_insert_eq. cbn [length get].
    destruct (length _); f_equal; lia.
  - by rewrite lookup_insert_ne.
Qed.

(** X7.  [_method_counts] counts the records per method: a method that
    occurs has as its count the number of records with exactly that method,
    and a method that does not occur has no entry. *)
Theorem method_counts_spec (endpoints : list EndpointRecord) (m : string) :
  _method_counts endpoints !! m
  = match length (List.filter (λ ep, String.eqb (ep_method ep) m) endpoints) with
    | O => None
    | n => Some n
    end.
Proof.
  unfold _method_counts. rewrite method_counts_fold, lookup_empty.
  by destruct (length _).
Qed.

Lemma setdefault_append_keys sub ep (g : list (string * list EndpointRecord)) :
  (setdefault_append sub ep g).*1 = if bool_decide (sub ∈ g.*1) then g.*1 else g.*1 ++ [sub].
Proof.
  induction g as [|[k eps] g IH]; cbn.
  - rewrite bool_decide_false; [done | apply not_elem_of_nil].
  - destruct (String.eqb_spec k sub) as [->|Hne]; cbn.
    + rewrite bool_decide_true; [done | left].
    + rewrite IH. destruct (decide (sub ∈ g.*1)) as [Hin|Hnin].
      * rewrite !bool_decide_true; [done | by right | done].
      * rewrite !bool_decide_false; [done | | done].
        rewrite not_elem_of_cons. by split.
Qed.

Lemma setdefault_append_perm sub ep (g : list (string * list EndpointRecord)) :
  mjoin (setdefault_append sub ep g).*2 ≡ₚ mjoin g.*2 ++ [ep].
Proof.
  induction g as [|[k eps] g IH]; cbn; [done|].
  destruct (String.eqb k sub); cbn.
  - rewrite <- !app_assoc. apply Permutation_app_head.
    apply Permutation_app_comm.
  - rewrite IH. by rewrite app_assoc.
Qed.

Lemma setdefault_append_elem sub ep (g : list (string * list EndpointRecord)) k eps' :
  NoDup g.*1 →
  (k, eps') ∈ setdefault_append sub ep g →
  (k ≠ sub ∧ (k, eps') ∈ g)
  ∨ (k = sub ∧ ∃ eps, (sub, eps) ∈ g ∧ eps' = eps ++ [ep])
  ∨ (k = sub ∧ (sub ∉ g.*1) ∧ eps' = [ep]).
Proof.
  induction g as [|[k0 e0] g IH]; cbn.
  - intros _ [H|H]%elem_of_cons; [|by apply elem_of_nil in H].
    injection H as -> ->. right. right. split; [done|]. split; [apply not_elem_of_nil | done].
  - rewrite NoDup_cons. intros [Hk0 Hnd].
    destruct (String.eqb_spec k0 sub) as [->|Hne].
    + intros [H|H]%elem_of_cons.
      * injection H as -> ->. right. left. split; [done|]. exists e0. split; [left | done].
      * left. split; [|by right].
        intros ->. apply Hk0. apply list_elem_of_fmap. by exists (sub, eps').
    + intros [H|H]%elem_of_cons.
      * injection H as -> ->. left. split; [done | left].
      * destruct (IH Hnd H) as [[H1 H2]|[[H1 (eps & H2 & H3)]|(H1 & H2 & H3)]].
        -- left. split; [done | by right].
        -- right. left. split; [done|]. exists eps. split; [by right | done].
        -- right. right. split; [done|]. split; [|done].
           rewrite not_elem_of_cons. by split.
Qed.

Lemma filter_snoc {A} (f : A → bool) (l : list A) (x : A) :
  List.filter f (l ++ [x]) = List.filter f l ++ (if f x then [x] else []).
Proof. rewrite List.filter_app. cbn. by destruct (f x). Qed.

Lemma filter_none {A} (f : A → bool) (l : list A) :
  (∀ x, x ∈ l → f x = false) → List.filter f l = [].
Proof.
  induction l as [|x l IH]; intros H; [done|]. cbn.
  rewrite (H x) by left. apply IH. intros y Hy. apply H. by right.
Qed.

Lemma grouped_step l g ep :
  grouped l g → grouped (l ++ [ep]) (setdefault_append (ep_subcategory ep) ep g).
Proof.
  intros (Hnd & Hgr & Hcov & Hperm).
  split; [|split; [|split]].
  - rewrite setdefault_append_keys. case_bool_decide; [done|].
    apply NoDup_app. split; [done|]. split; [|apply NoDup_singleton].
    intros x Hx Hx'. apply list_elem_of_singleton in Hx'. by subst.
  - intros k eps' Hin. rewrite filter_snoc.
    destruct (setdefault_append_elem _ _ _ _ _ Hnd Hin)
      as [[H1 H2]|[[-> (eps & H2 & ->)]|(-> & H2 & ->)]].
    + destruct (Hgr _ _ H2) as [Hne ->].
      destruct (String.eqb_spec (ep_subcategory ep) k) as [E|E]; [congruence|].
      by rewrite app_nil_r.
    + destruct (Hgr _ _ H2) as [Hne ->]. rewrite String.eqb_refl.
      split; [|done]. by destruct (List.filter _ l).
    + rewrite String.eqb_refl. split; [done|].
      rewrite filter_none; [done|].
      intros e He. apply String.eqb_neq. intros E.
      apply H2. rewrite <- E. by apply Hcov.
  - intros e He. rewrite setdefault_append_keys.
    apply elem_of_app in He as [He|He].
    + case_bool_decide; [by apply Hcov|]. apply elem_of_app. left. by apply Hcov.
    + apply list_elem_of_singleton in He as ->.
      case_bool_decide; [done|]. apply elem_of_app. right. left.
  - rewrite setdefault_append_perm. by rewrite Hperm.
Qed.

Lemma grouped_fold l0 g l :
  grouped l0 g →
  grouped (l0 ++ l)
    (fold_left (λ groups ep, setdefault_append (ep_subcategory ep) ep groups) l g).
Proof.
  revert l0 g. induction l as [|e l IH]; intros l0 g H; cbn.
  - by rewrite app_nil_r.
  - rewrite (cons_middle e l0 l), app_assoc. apply IH. by apply grouped_step.
Qed.

Lemma grouped_nil : grouped [] [].
Proof.
  split; [constructor|]. split; [intros k eps H; by apply elem_of_nil in H|].
  split; [intros e H; by apply elem_of_nil in H | done].
Qed.

Lemma get_subcategories_grouped l : grouped l (_get_subcategories l).
Proof. apply (grouped_fold [] [] l), grouped_nil. Qed.

Lemma keys_fold_prefix g l :
  g.*1 `prefix_of`
    (fold_left (λ groups ep, setdefault_append (ep_subcategory ep) ep groups) l g).*1.
Proof.
  revert g. induction l as [|e l IH]; intros g; cbn; [done|].
  etrans; [|apply IH]. rewrite setdefault_append_keys.
  case_bool_decide; [done | by apply prefix_app_r].
Qed.

(** X8.  [_get_subcategories] partitions the records by subcategory: the
    group keys are distinct; the group of a key holds exactly the records of
    that subcategory, in their original order, and is never empty; every
    record is in the group of its subcategory, and all groups together hold
    each record exactly once.  Keys stand in order of first appearance:
    records that follow never move the groups already there. *)
Theorem get_subcategories_partition (endpoints : list EndpointRecord) :
  let groups := _get_subcategories endpoints in
  NoDup groups.*1
  ∧ (∀ k eps, (k, eps) ∈ groups →
       eps ≠ [] ∧ eps = List.filter (λ e, String.eqb (ep_subcategory e) k) endpoints)
  ∧ (∀ e, e ∈ endpoints → ep_subcategory e ∈ groups.*1)
  ∧ mjoin groups.*2 ≡ₚ endpoints
  ∧ (∀ more, groups.*1 `prefix_of` (_get_subcategories (endpoints ++ more)).*1).
Proof.
  intros groups. destruct (get_subcategories_grouped endpoints) as (H1 & H2 & H3 & H4).
  split; [done|]. split; [done|]. split; [done|]. split; [done|].
  intros more. unfold groups, _get_subcategories. rewrite fold_left_app.
  apply keys_fold_prefix.
Qed.

(** *** The tags of the listing *)

Lemma existsb_tag (filtered : list EndpointRecord) (tag : string) :
  existsb (λ ep, String.eqb (ep_tag ep) tag) filtered = true
  ↔ ∃ ep, ep ∈ filtered ∧ ep_tag ep = tag.
Proof.
  rewrite existsb_exists. split; intros (ep & Hin & Heq); exists ep.
  - split; [by apply list_elem_of_In | by apply String.eqb_eq].
  - split; [by apply list_elem_of_In | by apply String.eqb_eq].
Qed.

Lemma known_tags_loop (has : string → bool) (ts acc : list string) :
  fold_left (λ present_tags tag, if has tag then present_tags ++ [tag] else present_tags)
    ts acc
  = acc ++ List.filter has ts.
Proof.
  revert acc. induction ts as [|t ts IH]; intros acc; cbn.
  - by rewrite app_nil_r.
  - rewrite IH. destruct (has t); [|done]. by rewrite <- app_assoc.
Qed.

Lemma other_tags_loop (l : list EndpointRecord) (acc : list string) :
  ∃ extra,
    fold_left
      (λ present_tags ep,
         if bool_decide (ep_tag ep ∈ present_tags) then present_tags
         else present_tags ++ [ep_tag ep])
      l acc
    = acc ++ extra
    ∧ NoDup extra
    ∧ (∀ t, t ∈ extra → (t ∉ acc) ∧ ∃ ep, ep ∈ l ∧ ep_tag ep = t)
    ∧ (∀ ep, ep ∈ l → ep_tag ep ∈ acc ++ extra).
Proof.
  revert acc. induction l as [|e l IH]; intros acc; cbn.
  - exists []. rewrite app_nil_r. split; [done|]. split; [constructor|].
    split; intros ? H; by apply elem_of_nil in H.
  - case_bool_decide as Hin.
    + destruct (IH acc) as (extra & Heq & Hnd & Hex & Hcov).
      exists extra. split; [done|]. split; [done|]. split.
      * intros t Ht. destruct (Hex t Ht) as [H1 (ep & H2 & H3)].
        split; [done|]. exists ep. split; [by right | done].
      * intros ep [->|Hep]%elem_of_cons; [|by apply Hcov].
        apply elem_of_app. by left.
    + destruct (IH (acc ++ [ep_tag e])) as (extra & Heq & Hnd & Hex & Hcov).
      exists (ep_tag e :: extra). rewrite Heq, <- app_assoc. split; [done|].
      split.
      { constructor; [|done]. intros Ht. destruct (Hex _ Ht) as [H1 _].
        apply H1. apply elem_of_app. right. left. }
      split.
      * intros t [->|Ht]%elem_of_cons.
        -- split; [done|]. exists e. split; [left | done].
        -- destruct (Hex t Ht) as [H1 (ep & H2 & H3)]. split.
           ++ intros Hacc. apply H1. apply elem_of_app. by left.
           ++ exists ep. split; [by right | done].
      * intros ep [->|Hep]%elem_of_cons.
        -- apply elem_of_app. right. left.
        -- specialize (Hcov ep Hep). by rewrite <- app_assoc in Hcov.
Qed.

Lemma present_tags_decompose (TAG_ORDER : list string) (filtered : list EndpointRecord) :
  let known :=
    List.filter (λ tag, existsb (λ ep, String.eqb (ep_tag ep) tag) filtered) TAG_ORDER in
  ∃ extra,
    present_tags TAG_ORDER filtered = known ++ extra
    ∧ NoDup extra
    ∧ (∀ t, t ∈ extra → (t ∉ known) ∧ ∃ ep, ep ∈ filtered ∧ ep_tag ep = t)
    ∧ (∀ ep, ep ∈ filtered → ep_tag ep ∈ known ++ extra).
Proof.
  intros known. unfold present_tags. rewrite known_tags_loop. cbn [app].
  apply other_tags_loop.
Qed.

Lemma known_tags_elem (TAG_ORDER : list string) (filtered : list EndpointRecord) t :
  t ∈ List.filter (λ tag, existsb (λ ep, String.eqb (ep_tag ep) tag) filtered) TAG_ORDER
  ↔ t ∈ TAG_ORDER ∧ ∃ ep, ep ∈ filtered ∧ ep_tag ep = t.
Proof.
  rewrite list_elem_of_In, filter_In, <- list_elem_of_In.
  by rewrite existsb_tag.
Qed.

Lemma present_tags_elem (TAG_ORDER : list string) (filtered : list EndpointRecord) t :
  t ∈ present_tags TAG_ORDER filtered ↔ ∃ ep, ep ∈ filtered ∧ ep_tag ep = t.
Proof.
  destruct (present_tags_decompose TAG_ORDER filtered) as (extra & -> & Hnd & Hex & Hcov).
  rewrite elem_of_app. split.
  - intros [H|H]; [by apply known_tags_elem in H as [_ H] | by apply Hex in H as [_ H]].
  - intros (ep & Hin & <-). apply elem_of_app. by apply Hcov.
Qed.

Lemma present_tags_NoDup (TAG_ORDER : list string) (filtered : list EndpointRecord) :
  NoDup TAG_ORDER → NoDup (present_tags TAG_ORDER filtered).
Proof.
  intros Hord.
  destruct (present_tags_decompose TAG_ORDER filtered) as (extra & -> & Hnd & Hex & Hcov).
  apply NoDup_app. split; [|split; [|done]].
  - clear -Hord. induction Hord as [|t ts Ht _ IH]; cbn; [constructor|].
    destruct (existsb _ filtered); [|done]. constructor; [|done].
    intros Hin. apply Ht. apply list_elem_of_In in Hin. apply filter_In in Hin as [Hin _].
    by apply list_elem_of_In.
  - intros t Ht Ht'. by destruct (Hex t Ht') as [H1 _].
Qed.

(** X9.  [present_tags] holds exactly the tags that occur among the
    filtered records: first the tags of [TAG_ORDER] that occur, in the order
    of [TAG_ORDER], then the occurring tags that [TAG_ORDER] does not name,
    each once.  When [TAG_ORDER] has no repetition, neither has
    [present_tags]. *)
Theorem present_tags_spec (TAG_ORDER : list string) (filtered : list EndpointRecord) :
  (∀ t, t ∈ present_tags TAG_ORDER filtered ↔ ∃ ep, ep ∈ filtered ∧ ep_tag ep = t)
  ∧ (∃ extra,
       present_tags TAG_ORDER filtered
       = List.filter (λ tag, existsb (λ ep, String.eqb (ep_tag ep) tag) filtered) TAG_ORDER
         ++ extra
       ∧ NoDup extra
       ∧ ∀ t, t ∈ extra → t ∉ TAG_ORDER)
  ∧ (NoDup TAG_ORDER → NoDup (present_tags TAG_ORDER filtered)).
Proof.
  split; [intros t; apply present_tags_elem|]. split; [|apply present_tags_NoDup].
  destruct (present_tags_decompose TAG_ORDER filtered) as (extra & Heq & Hnd & Hex & Hcov).
  exists extra. split; [done|]. split; [done|].
  intros t Ht Hord. destruct (Hex t Ht) as [H1 H2]. apply H1.
  by apply known_tags_elem.
Qed.

(** *** Every record that passed the filters gets one card *)

Lemma mjoin_cons {A} (x : list A) (l : list (list A)) : mjoin (x :: l) = x ++ mjoin l.
Proof. reflexivity. Qed.

Lemma by_tag_skip (ts : list string) (e : EndpointRecord) (l : list EndpointRecord) :
  ep_tag e ∉ ts →
  mjoin ((λ t, List.filter (λ ep, String.eqb (ep_tag ep) t) (e :: l)) <$> ts)
  = mjoin ((λ t, List.filter (λ ep, String.eqb (ep_tag ep) t) l) <$> ts).
Proof.
  induction ts as [|t ts IH]; [done|].
  rewrite not_elem_of_cons. intros [Hne Hts].
  rewrite !fmap_cons, !mjoin_cons, IH by done. cbn [List.filter].
  by destruct (String.eqb_spec (ep_tag e) t) as [E|E].
Qed.

Lemma by_tag_once (ts : list string) (e : EndpointRecord) (l : list EndpointRecord) :
  NoDup ts → ep_tag e ∈ ts →
  mjoin ((λ t, List.filter (λ ep, String.eqb (ep_tag ep) t) (e :: l)) <$> ts)
  ≡ₚ e :: mjoin ((λ t, List.filter (λ ep, String.eqb (ep_tag ep) t) l) <$> ts).
Proof.
  induction 1 as [|t ts Ht Hnd IH]; [by rewrite elem_of_nil|].
  intros Hin. rewrite !fmap_cons, !mjoin_cons.
  destruct (decide (ep_tag e = t)) as [E|E].
  - subst t. rewrite by_tag_skip by done. cbn [List.filter].
    by rewrite String.eqb_refl.
  - apply elem_of_cons in Hin as [Hin|Hin]; [done|].
    rewrite (IH Hin). cbn [List.filter].
    apply String.eqb_neq in E. rewrite E. by rewrite Permutation_middle.
Qed.

Lemma by_tag_all (ts : list string) (l : list EndpointRecord) :
  NoDup ts → (∀ e, e ∈ l → ep_tag e ∈ ts) →
  mjoin ((λ t, List.filter (λ ep, String.eqb (ep_tag ep) t) l) <$> ts) ≡ₚ l.
Proof.
  intros Hnd. induction l as [|e l IH]; intros Hcov.
  - clear. induction ts as [|t ts IH]; [done|].
    rewrite fmap_cons, mjoin_cons. exact IH.
  - rewrite by_tag_once; [|done | apply Hcov; left].
    constructor. apply IH. intros e' He'. apply Hcov. by right.
Qed.

Lemma sections_by_tag (filtered : list EndpointRecord) (ts : list string) :
  mjoin ((λ section : string * list (string * list EndpointRecord), mjoin section.2.*2) <$>
         omap (λ tag,
                 match List.filter (λ ep, String.eqb (ep_tag ep) tag) filtered with
                 | [] => None
                 | _ => Some (tag, _get_subcategories
                                     (List.filter (λ ep, String.eqb (ep_tag ep) tag) filtered))
                 end) ts)
  ≡ₚ mjoin ((λ t, List.filter (λ ep, String.eqb (ep_tag ep) t) filtered) <$> ts).
Proof.
  induction ts as [|t ts IH]; [done|].
  rewrite fmap_cons, mjoin_cons. cbn [omap list_omap].
  pose proof (get_subcategories_grouped
                (List.filter (λ ep, String.eqb (ep_tag ep) t) filtered))
    as (_ & _ & _ & Hperm).
  destruct (List.filter (λ ep, String.eqb (ep_tag ep) t) filtered) as [|e es] eqn:E.
  - exact IH.
  - rewrite fmap_cons, mjoin_cons, IH. cbn [snd].
    by apply Permutation_app_tail.
Qed.

Lemma sections_keys (filtered : list EndpointRecord) (ts : list string) :
  (∀ t, t ∈ ts → List.filter (λ ep, String.eqb (ep_tag ep) t) filtered ≠ []) →
  (omap (λ tag,
           match List.filter (λ ep, String.eqb (ep_tag ep) tag) filtered with
           | [] => None
           | _ => Some (tag, _get_subcategories
                               (List.filter (λ ep, String.eqb (ep_tag ep) tag) filtered))
           end) ts).*1 = ts.
Proof.
  induction ts as [|t ts IH]; intros H; [done|].
  cbn [omap list_omap].
  pose proof (H t ltac:(left)) as Ht.
  destruct (List.filter (λ ep, String.eqb (ep_tag ep) t) filtered) eqn:E; [done|].
  rewrite fmap_cons. cbn [fst]. f_equal. apply IH. intros t' Ht'. apply H. by right.
Qed.

(** X10.  The listing shows each record that passed the filters exactly
    once, provided [TAG_ORDER] names no tag twice: the cards, taken tag by
    tag and subcategory by subcategory, are a permutation of the filtered
    records.  Every tag of [present_tags] has a section (the [continue]
    for a tag without records is never taken). *)
Theorem listing_shows_each_once (TAG_ORDER : list string) (filtered : list EndpointRecord) :
  (tag_sections TAG_ORDER filtered).*1 = present_tags TAG_ORDER filtered
  ∧ (NoDup TAG_ORDER → cards TAG_ORDER filtered ≡ₚ filtered).
Proof.
  pose proof (present_tags_elem TAG_ORDER filtered) as Hmem.
  pose proof (present_tags_NoDup TAG_ORDER filtered) as Hnd.
  split.
  - unfold tag_sections.
    assert (H : ∀ t, t ∈ present_tags TAG_ORDER filtered →
                     List.filter (λ ep, String.eqb (ep_tag ep) t) filtered ≠ []).
    { intros t Ht Hnil. apply Hmem in Ht as (ep & Hin & Heq).
      assert (Hep : In ep (List.filter (λ ep, String.eqb (ep_tag ep) t) filtered)).
      { apply filter_In. split; [by apply list_elem_of_In | by apply String.eqb_eq]. }
      by rewrite Hnil in Hep. }
    by apply sections_keys.
  - intros Hord. unfold cards, tag_sections. rewrite sections_by_tag.
    apply by_tag_all; [by apply Hnd|].
    intros e He. apply Hmem. by exists e.
Qed.

(** *** The query *)

(** X11.  The query is compared without regard to its case, and a query
    of white space only is no query, given two facts about the built-ins:
    lower-casing and stripping commute, and the empty text is its own
    lower-case form.  Then two queries that agree once lower-cased select
    the same records, and with a query that strips to nothing and the
    method filter "All" the filtered listing is the whole catalog. *)
Theorem query_case_and_blanks :
  (∀ s, Py.lower (Py.strip s) = Py.strip (Py.lower s)) →
  Py.lower "" = "" →
  (∀ s s' method_filter ep,
     Py.lower s = Py.lower s' →
     _matches s method_filter ep = _matches s' method_filter ep)
  ∧ (∀ s ENDPOINTS, Py.strip s = "" → filtered s "All" ENDPOINTS = ENDPOINTS).
Proof.
  intros Hcomm Hempty. split.
  - intros s s' mf ep Hs. unfold _matches, search_lower.
    by rewrite !Hcomm, Hs.
  - intros s E Hs. unfold filtered.
    induction E as [|e E IH]; [done|]. cbn.
    rewrite IH. unfold _matches, search_lower. rewrite Hs, Hempty. reflexivity.
Qed.

(** ** Diagram: popup of an actor *)


(** ** Diagram: drawing the arrows *)

Section DrawArrows.

Import Diagram Arrows.

Variable getElementById : string → option rect.
Variable parent : rect.

Lemma draw_arrow_is_arrow_g arrow c :
  draw_arrow getElementById parent arrow = Some c → is_arrow_g c = true.
Proof.
  destruct arrow as [[fromId toId] label]. cbn.
  destruct (getElementById fromId), (getElementById toId); intros H; try done.
  by injection H as <-.
Qed.

Lemma drawn_are_arrow_g (l : list (string * string * string)) :
  List.filter (λ c, negb (is_arrow_g c)) (omap (draw_arrow getElementById parent) l) = []
  ∧ List.filter is_arrow_g (omap (draw_arrow getElementById parent) l)
    = omap (draw_arrow getElementById parent) l.
Proof.
  induction l as [|a l [IH1 IH2]]; [done|]. cbn [omap list_omap].
  destruct (draw_arrow getElementById parent a) as [c|] eqn:E; [|done].
  apply draw_arrow_is_arrow_g in E. cbn. by rewrite E, IH1, IH2.
Qed.

Lemma filter_filter_same {A} (f : A → bool) (l : list A) :
  List.filter f (List.filter f l) = List.filter f l.
Proof.
  induction l as [|x l IH]; [done|]. cbn.
  destruct (f x) eqn:E; [|done]. cbn. by rewrite E, IH.
Qed.

Lemma filter_filter_neg {A} (f : A → bool) (l : list A) :
  List.filter f (List.filter (λ x, negb (f x)) l) = [].
Proof.
  induction l as [|x l IH]; [done|]. cbn.
  destruct (f x) eqn:E; [done|]. cbn. by rewrite E.
Qed.

Lemma drawn_length (l : list (string * string * string)) :
  length (omap (draw_arrow getElementById parent) l)
  = length (List.filter
              (λ arrow : string * string * string,
                 bool_decide (is_Some (getElementById arrow.1.1)
                              ∧ is_Some (getElementById arrow.1.2))) l).
Proof.
  induction l as [|[[fromId toId] label] l IH]; [done|].
  cbn [omap list_omap List.filter draw_arrow fst snd].
  destruct (getElementById fromId) as [r1|] eqn:E1,
           (getElementById toId) as [r2|] eqn:E2.
  - rewrite bool_decide_true by (split; eauto). cbn. by rewrite IH.
  - rewrite bool_decide_false; [done|]. intros [_ [? ?]]. done.
  - rewrite bool_decide_false; [done|]. intros [[? ?] _]. done.
  - rewrite bool_decide_false; [done|]. intros [[? ?] _]. done.
Qed.

(** X13.  [drawArrows] can be run again at any time: drawing twice gives
    what drawing once gives; the children of the svg element that are not
    arrow groups (the marker definitions) stay, in their order; and after a
    draw there is exactly one arrow group per declared arrow whose two
    nodes are both in the document, at most nine. *)
Theorem drawArrows_redraw (svg : list svg_child) :
  drawArrows getElementById parent (drawArrows getElementById parent svg)
  = drawArrows getElementById parent svg
  ∧ List.filter (λ c, negb (is_arrow_g c)) (drawArrows getElementById parent svg)
    = List.filter (λ c, negb (is_arrow_g c)) svg
  ∧ length (List.filter is_arrow_g (drawArrows getElementById parent svg))
    = length (List.filter
                (λ arrow : string * string * string,
                   bool_decide (is_Some (getElementById arrow.1.1)
                                ∧ is_Some (getElementById arrow.1.2))) arrows)
  ∧ (length (List.filter is_arrow_g (drawArrows getElementById parent svg)) <= 9)%nat.
Proof.
  destruct (drawn_are_arrow_g arrows) as [H1 H2].
  assert (Hothers :
    List.filter (λ c, negb (is_arrow_g c)) (drawArrows getElementById parent svg)
    = List.filter (λ c, negb (is_arrow_g c)) svg).
  { unfold drawArrows. rewrite List.filter_app, H1, app_nil_r.
    apply filter_filter_same. }
  assert (Hlen :
    length (List.filter is_arrow_g (drawArrows getElementById parent svg))
    = length (omap (draw_arrow getElementById parent) arrows)).
  { unfold drawArrows. by rewrite List.filter_app, filter_filter_neg, H2. }
  split; [|split; [done|split]].
  - unfold drawArrows at 1. by rewrite Hothers.
  - by rewrite Hlen, drawn_length.
  - rewrite Hlen, drawn_length.
    etrans; [apply List.filter_length_le|]. reflexivity.
Qed.

End DrawArrows.

(** ** Diagram: invariants of the popup state *)

Section PopupInvariants.

Import Diagram.

Lemma one_visible_hide_callback s : one_visible s → one_visible (hide_callback s).
Proof.
  unfold one_visible, hide_callback.
  destruct (hoverNode s) eqn:E1, (hoverPopup s) eqn:E2, (activePopup s) as [a|] eqn:E3;
    cbn; rewrite ?E3; try done.
  intros ->. set_solver.
Qed.

Lemma one_visible_fire_due now s : one_visible s → one_visible (fire_due now s).
Proof.
  intros H. rewrite fire_due_unfold. cbv zeta.
  destruct (List.filter _ (timers s)); [done|].
  by apply one_visible_hide_callback.
Qed.

Lemma one_visible_showPopup d node s : one_visible s → one_visible (showPopup d node s).
Proof.
  unfold one_visible, showPopup.
  destruct (data_popup d node) as [popup|]; [|done]. cbn.
  destruct (activePopup s) as [a|]; intros ->; [|set_solver].
  destruct (decide (a = popup)); set_solver.
Qed.

Lemma one_visible_handle d now e s : one_visible s → one_visible (handle d now e s).
Proof.
  intros H. destruct e; cbn [handle]; [|done..].
  by apply one_visible_showPopup.
Qed.

Lemma one_visible_run d trace s : one_visible s → one_visible (run d trace s).
Proof.
  revert s. induction trace as [|[now e] trace IH]; intros s H; [done|].
  cbn [run]. by apply IH, one_visible_handle, one_visible_fire_due.
Qed.

(** X15.  At most one popup is visible at any time, and it is the active
    one: after any sequence of pointer events and timer callbacks the set of
    visible popups is empty when there is no active popup and holds just
    the active popup otherwise.  In particular, entering a node that has a
    popup shows that popup alone, whatever was shown before. *)
Theorem one_popup_at_a_time (d : dom) (trace : list (Z * event)) :
  one_visible (run d trace initial)
  ∧ (∀ s, one_visible s → one_visible (run d trace s))
  ∧ (∀ now node popup,
       data_popup d node = Some popup →
       let s' := run d (trace ++ [(now, NodeEnter node)]) initial in
       activePopup s' = Some popup ∧ visible s' = {[popup]}).
Proof.
  assert (H0 : one_visible initial) by done.
  split; [by apply one_visible_run|]. split; [intros s; apply one_visible_run|].
  intros now node popup Hd s'.
  assert (Hs' : one_visible s') by (by apply one_visible_run).
  assert (Ha : activePopup s' = Some popup).
  { subst s'. clear Hs'. generalize initial. intros s.
    revert s. induction trace as [|[t e] trace IH]; intros s; [|apply IH].
    cbn. unfold showPopup. by rewrite Hd. }
  split; [done|]. unfold one_visible in Hs'. by rewrite Ha in Hs'.
Qed.

Lemma filter_split_length {A} (f : A → bool) (l : list A) :
  (length (List.filter f l) + length (List.filter (λ x, negb (f x)) l) = length l)%nat.
Proof.
  induction l as [|x l IH]; [done|]. cbn. destruct (f x); cbn; lia.
Qed.

Lemma hide_callback_budget s :
  timers (hide_callback s) = timers s
  ∧ (grace_hides (hide_callback s) <= S (grace_hides s))%nat.
Proof.
  unfold hide_callback.
  destruct (hoverNode s), (hoverPopup s), (activePopup s); cbn; split; (done || lia).
Qed.

Lemma fire_due_budget now s :
  (grace_hides (fire_due now s) + length (timers (fire_due now s))
   <= grace_hides s + length (timers s))%nat.
Proof.
  rewrite fire_due_unfold. cbv zeta.
  pose proof (filter_split_length (λ t, (t <=? now)%Z) (timers s)) as Hlen.
  destruct (List.filter (λ t, (t <=? now)%Z) (timers s)) as [|t due].
  - cbn in *. lia.
  - destruct (hide_callback_budget
                (set_timers (List.filter (λ t, negb (t <=? now)%Z) (timers s)) s))
      as [-> Hh].
    cbn in *. lia.
Qed.

Lemma handle_budget d now e s :
  (grace_hides (handle d now e s) + length (timers (handle d now e s))
   <= grace_hides s + length (timers s) + leaves [(now, e)])%nat.
Proof.
  destruct e; cbn -[Z.add]; rewrite ?length_app; cbn; try lia.
  unfold showPopup. destruct (data_popup d node); cbn; lia.
Qed.

Lemma run_budget d trace s :
  (grace_hides (run d trace s) + length (timers (run d trace s))
   <= grace_hides s + length (timers s) + leaves trace)%nat.
Proof.
  revert s. induction trace as [|[now e] trace IH]; intros s; [cbn; lia|].
  cbn [run]. etrans; [apply IH|].
  pose proof (handle_budget d now e (fire_due now s)) as H1.
  pose proof (fire_due_budget now s) as H2.
  assert (leaves ((now, e) :: trace) = leaves [(now, e)] + leaves trace)%nat
    by (unfold leaves; cbn; by destruct e).
  lia.
Qed.

(** X16.  The grace timer never hides more often than the pointer has
    left: in any run, the number of hides so far plus the number of timers
    still pending is at most the number of leave events, so a popup is not
    hidden by the timer unless the pointer left a node or a popup before. *)
Theorem hides_bounded_by_leaves (d : dom) (trace : list (Z * event)) :
  (grace_hides (run d trace initial) + length (timers (run d trace initial))
   <= leaves trace)%nat.
Proof. pose proof (run_budget d trace initial) as H. cbn in H. lia. Qed.

End PopupInvariants.

(** ** From the listing to the detail pages *)

Lemma cards_subset (TAG_ORDER : list string) (filtered : list EndpointRecord) ep :
  ep ∈ cards TAG_ORDER filtered → ep ∈ filtered.
Proof.
  unfold cards, tag_sections. rewrite sections_by_tag.
  intros (l & Hl & Hin)%list_elem_of_join.
  apply list_elem_of_fmap in Hin as (t & -> & _).
  apply list_elem_of_In, filter_In in Hl as [Hl _]. by apply list_elem_of_In.
Qed.

(** X17.  Every card of the listing leads somewhere: for a catalog and the
    page map that [main] builds from it, whatever the query and the method
    filter, a record that has a card is a catalog record, the "View
    details" button of its card finds a page in the map, and that page is
    a handle of the card's id. *)
Theorem card_has_target
    (TAG_ORDER : list string) (ENDPOINTS : list EndpointRecord)
    (pages : list Page) (page_map : gmap string Page)
    (search method_filter : string) (ep : EndpointRecord) :
  result (build_endpoint_pages ENDPOINTS) = Done (pages, page_map) →
  ep ∈ cards TAG_ORDER (filtered search method_filter ENDPOINTS) →
  ep ∈ ENDPOINTS
  ∧ ∃ p, view_details_target page_map ep = Some p
      ∧ p ∈ pages
      ∧ page p = PageFn (ep_id ep).
Proof.
  intros (Hall & -> & ->)%build_endpoint_pages_done Hin%cards_subset.
  assert (HE : ep ∈ ENDPOINTS).
  { unfold filtered in Hin. apply list_elem_of_In, filter_In in Hin as [Hin _].
    by apply list_elem_of_In. }
  split; [done|].
  unfold view_details_target.
  assert (Hdom : ep_id ep ∈ dom (by_id_of ENDPOINTS ∅)).
  { rewrite by_id_of_dom by done. apply elem_of_union_r, elem_of_list_to_set.
    by apply list_elem_of_fmap_2. }
  apply elem_of_dom in Hdom as [p Hp]. exists p. split; [done|].
  apply by_id_of_lookup in Hp as [Hp|(ep' & Hin' & Hid & Hp)].
  - by rewrite lookup_empty in Hp.
  - split; [apply list_elem_of_omap; by exists ep'|].
    rewrite <- Hid. by apply made_page_fn.
Qed.


End Properties.

(* ===================================================================== *)
(** * Concrete checks *)
(* ===================================================================== *)

(** The properties at sample inputs.  The sample records hold ASCII text,
    so the built-ins are those of ASCII text here, and [st.Page] is the
    sample one. *)
#[local] Existing Instance Py.ascii_text.
#[local] Existing Instance sample_streamlit.

(** ** Route generator *)

(** C1, the claim as stated fails for ids that are no route tokens: for a
    record with the id "a/b" [st.Page] refuses the url path "ep-a/b", so
    [build_endpoint_pages] raises and returns neither list nor dict; for a
    record with the id "x " the page is registered under "ep-x", which is
    not [ep-{id}]. *)
Lemma route_token_not_kept :
  build_endpoint_pages [Demo.A; Demo.nested; Demo.C]
  = ([], Halt (Raise Py.StreamlitAPIException))
  ∧ ∃ p,
      build_endpoint_pages [Demo.padded] = ([], Done ([p], {[ "x " := p ]}))
      ∧ url_path p = "ep-x"
      ∧ url_path p ≠ "ep-" +:+ ep_id Demo.padded.
Proof.
  split; [reflexivity|].
  exists {| page := PageFn "x "; title := "Padded"; url_path := "ep-x" |}.
  split; [reflexivity|]. split; [reflexivity | discriminate].
Qed.

Lemma build_endpoint_pages_handles_witness :
  ∃ pages by_id p rest,
    build_endpoint_pages Demo.catalog = ([], Done (pages, by_id))
    ∧ pages !! 2%nat = Some p
    ∧ by_id !! "C" = Some p
    ∧ url_path p = "ep-C"
    ∧ calls (_page "" Demo.catalog false (page p))
      = [Markdown "" true;
         Button "Back to All Endpoints";
         Markdown
           (Py.tpl "<div style='margin-top:8px;'><span class='method-badge method-get'>GET</span> <span class='endpoint-path' style='font-size:1.15rem;'>/meetings/c</span></div>")
           true;
         Markdown "## Gamma" false]
        ++ rest.
Proof.
  destruct (build_endpoint_pages_handles "" Demo.catalog) as [H _].
  destruct H as (pages & by_id & Hbuild & _ & _ & Hby & Hdet).
  { repeat constructor; eexists; reflexivity. }
  assert (Hnd : NoDup (ids Demo.catalog)).
  { apply (bool_decide_unpack _). vm_compute. exact I. }
  destruct (Hdet Hnd 2%nat Demo.C eq_refl)
    as (p & Hp & Hid & _ & _ & rest & Hcalls).
  exists pages, by_id, p, rest.
  split; [exact Hbuild|]. split; [exact Hp|]. split; [exact Hid|].
  split; [apply (Hby "C" p Hid) | exact Hcalls].
Defined.

Lemma page_resolves_at_call_time_witness :
  ∃ pages by_id p,
    result (build_endpoint_pages Demo.catalog) = Done (pages, by_id)
    ∧ pages !! 2%nat = Some p
    ∧ _page "" [Demo.A; Demo.B] false (page p)
      = ([ErrorBox "Endpoint not found."], Halt Stop).
Proof.
  exists (omap made_page Demo.catalog), (by_id_of Demo.catalog ∅),
    {| page := PageFn "C"; title := "Gamma"; url_path := "ep-C" |}.
  split; [reflexivity|]. split; [reflexivity|].
  destruct (page_resolves_at_call_time "" Demo.catalog [Demo.A; Demo.B] false
              (omap made_page Demo.catalog) (by_id_of Demo.catalog ∅)
              {| page := PageFn "C"; title := "Gamma"; url_path := "ep-C" |})
    as (i & Hi & _ & Habs & _).
  - reflexivity.
  - do 2 right. left.
  - injection Hi as <-. apply Habs.
    apply (bool_decide_unpack _). vm_compute. exact I.
Defined.

(** ** Schema renderer *)

Lemma request_body_rows_tolerant_witness :
  render_request_body Demo.two_shapes
  = ([Markdown "### Request Body" false;
      Markdown
        (Py.tpl "<table class='schema-table'><thead><tr><th>Field</th><th>Type</th><th>Required</th><th>Description</th></tr></thead><tbody><tr><td class='field-name'>name</td><td class='field-type'>str</td><td>Yes</td><td>display name</td></tr><tr><td class='field-name'>note</td><td class='field-type'>str</td><td>-</td><td>free text</td></tr></tbody></table>")
        true], Done tt).
Proof.
  destruct request_body_rows_tolerant as (_ & _ & H).
  destruct (H Demo.two_shapes _ eq_refl) as (rows & _ & Hrows & Heq).
  - discriminate.
  - constructor; [left; reflexivity|].
    constructor; [right; reflexivity|]. constructor.
  - rewrite Heq.
    inversion Hrows as [|item1 row1 items1 rows1 H1 Hrest]. subst.
    inversion Hrest as [|item2 row2 items2 rows2 H2 Hnil]. subst.
    inversion Hnil. subst.
    vm_compute in H1. injection H1 as <-.
    vm_compute in H2. injection H2 as <-.
    reflexivity.
Defined.

Lemma related_endpoints_of_complex_witness :
  related_endpoints Demo.catalog Demo.A = [Demo.B; Demo.C]
  ∧ calls (render_related Demo.catalog Demo.A)
    = [Markdown "### Related Endpoints" false;
       Markdown (related_line Demo.B) true;
       Markdown (related_line Demo.C) true].
Proof.
  destruct (related_endpoints_of_complex Demo.catalog Demo.A eq_refl) as (_ & _ & H).
  split; [reflexivity|]. rewrite H. reflexivity.
Defined.

(** C8, the example as the specification words it ("rendering A lists C
    but not B") fails: B, a record of complexity "simple" that shares A's
    tag and subcategory, is listed when A is rendered. *)
Lemma related_example_lists_B :
  ep_complexity Demo.B = Some "simple"
  ∧ Markdown (related_line Demo.B) true ∈ calls (render_related Demo.catalog Demo.A)
  ∧ Markdown (related_line Demo.C) true ∈ calls (render_related Demo.catalog Demo.A)
  ∧ (Markdown (related_line Demo.A) true ∉ calls (render_related Demo.catalog Demo.A))
  ∧ (Markdown (related_line Demo.D) true ∉ calls (render_related Demo.catalog Demo.A)).
Proof.
  split; [reflexivity|].
  change (calls (render_related Demo.catalog Demo.A))
    with [Markdown "### Related Endpoints" false;
          Markdown (related_line Demo.B) true;
          Markdown (related_line Demo.C) true].
  split; [right; left|]. split; [do 2 right; left|].
  split; intros H; repeat (apply elem_of_cons in H as [H|H]; [discriminate H|]);
    by apply elem_of_nil in H.
Qed.

(** C6, the claim read over every section fails: a record with no [auth],
    [source_file] or [source_line] still gets its meta row, a [div] around
    a [span] that holds only ":". *)
Lemma meta_row_without_source :
  ep_auth Demo.ping = None ∧ ep_source_file Demo.ping = None
  ∧ ep_source_line Demo.ping = None
  ∧ calls (render_meta Demo.ping)
    = [Markdown
         (Py.tpl "<div style='display:flex;gap:12px;align-items:center;flex-wrap:wrap;margin-bottom:8px;'>"
          +:+ Py.tpl "<span style='font-size:0.78rem;color:#64748B;'>" +:+ ":" +:+ "</span>"
          +:+ "</div>") true]
  ∧ ¬ emitted_only_if_sourced [].
Proof.
  do 3 (split; [reflexivity|]). split; [reflexivity|].
  intros H. specialize (H Demo.ping SecMeta).
  cbn in H. discriminate H. discriminate.
Qed.

Lemma sections_emitted_iff_sourced_witness :
  render_endpoint_detail "" Demo.catalog false Demo.one_query
  = ([Markdown "" true;
      Button "Back to All Endpoints";
      Markdown
        (Py.tpl "<div style='margin-top:8px;'><span class='method-badge method-get'>GET</span> <span class='endpoint-path' style='font-size:1.15rem;'>/meetings</span></div>")
        true;
      Markdown "## Search meetings" false;
      Markdown
        (Py.tpl "<div style='display:flex;gap:12px;align-items:center;flex-wrap:wrap;margin-bottom:8px;'><span style='font-size:0.78rem;color:#64748B;'>:</span></div>")
        true;
      Markdown "---" false;
      Markdown "### Description" false;
      Markdown "Find meetings by text." false;
      Markdown "### Query Parameters" false;
      Markdown
        (Py.tpl "<table class='schema-table'><thead><tr><th>Name</th><th>Type</th><th>Description</th></tr></thead><tbody><tr><td class='field-name'>q</td><td class='field-type'>str</td><td>text to look for</td></tr></tbody></table>")
        true], Done tt)
  ∧ (Markdown "### Query Parameters" false
       ∉ calls (render_endpoint_detail "" Demo.catalog false Demo.A))
  ∧ (Markdown "### Response (200)" false
       ∉ calls (render_endpoint_detail "" Demo.catalog false Demo2.short_row)).
Proof.
  split; [|split].
  - destruct (sections_emitted_iff_sourced "" Demo.catalog Demo.one_query)
      as (_ & _ & _ & _ & _ & _ & _ & _ & _ & H & _).
    rewrite H by constructor. reflexivity.
  - destruct (sections_emitted_iff_sourced "" Demo.catalog Demo.A)
      as (_ & _ & _ & _ & _ & _ & _ & _ & _ & _ & _ & _ & H & _).
    apply H; [reflexivity | discriminate].
  - destruct (sections_emitted_iff_sourced "" Demo.catalog Demo2.short_row)
      as (_ & _ & _ & _ & _ & _ & _ & _ & _ & _ & H & _).
    rewrite H by (right; left; cbn; lia).
    vm_compute. intros Hin.
    repeat (apply elem_of_cons in Hin as [Hin|Hin]; [discriminate Hin|]).
    by apply elem_of_nil in Hin.
Defined.


Lemma detail_sections_in_order_witness :
  result (render_endpoint_detail "" Demo.catalog false Demo.two_shapes) = Done tt.
Proof.
  destruct (detail_sections_in_order "" Demo.catalog Demo.two_shapes) as [_ H].
  rewrite H; [reflexivity|].
  repeat constructor.
Defined.

Lemma malformed_request_body_rows_witness :
  result (render_endpoint_detail "" Demo.catalog false Demo2.short_row)
  = Halt (Raise Py.IndexError)
  ∧ Markdown "### Response (200)" false
      ∉ calls (render_endpoint_detail "" Demo.catalog false Demo2.short_row).
Proof.
  destruct (malformed_request_body_rows "" Demo.catalog Demo2.short_row) as (_ & _ & H).
  destruct H as [_ H].
  - right. left. cbn. lia.
  - rewrite H. split; [reflexivity|].
    vm_compute. intros Hin.
    repeat (apply elem_of_cons in Hin as [Hin|Hin]; [discriminate Hin|]).
    by apply elem_of_nil in Hin.
Defined.

Lemma related_endpoints_symmetric_witness :
  Demo.A ∈ related_endpoints Demo.catalog Demo.C
  ∧ Markdown (related_line Demo.A) true ∈ calls (render_related Demo.catalog Demo.C)
  ∧ Demo.A ∈ related_endpoints Demo.catalog Demo.B
  ∧ calls (render_related Demo.catalog Demo.B) = [].
Proof.
  destruct (related_endpoints_symmetric Demo.catalog Demo.A Demo.C) as (H1 & H2 & _).
  { left. }
  { vm_compute. right. left. }
  destruct (related_endpoints_symmetric Demo.catalog Demo.A Demo.B) as (H3 & _ & H4 & _).
  { left. }
  { vm_compute. left. }
  split; [exact H1|]. split; [exact (H2 eq_refl)|]. split; [exact H3|].
  apply H4. discriminate.
Defined.

Lemma by_id_keeps_last_witness :
  ∃ pages by_id,
    result (build_endpoint_pages [Demo.A; Demo.B; Demo.A_again]) = Done (pages, by_id)
    ∧ by_id !! "A"
      = Some {| page := PageFn "A"; title := "Alpha, replaced"; url_path := "ep-A" |}
    ∧ length pages = 3%nat.
Proof.
  exists (omap made_page [Demo.A; Demo.B; Demo.A_again]),
    (by_id_of [Demo.A; Demo.B; Demo.A_again] ∅).
  assert (Hbuild : result (build_endpoint_pages [Demo.A; Demo.B; Demo.A_again])
                   = Done (omap made_page [Demo.A; Demo.B; Demo.A_again],
                           by_id_of [Demo.A; Demo.B; Demo.A_again] ∅))
    by reflexivity.
  split; [exact Hbuild|].
  destruct (by_id_keeps_last [Demo.A; Demo.B; Demo.A_again]
              (omap made_page [Demo.A; Demo.B; Demo.A_again])
              (by_id_of [Demo.A; Demo.B; Demo.A_again] ∅) "A" Hbuild) as [H1 H2].
  split; [exact H1 | exact H2].
Defined.

(** ** Listing *)

(** C9, the search contract as the specification words it fails both ways
    on the record [GET /ping "Ping"]: the query " /ping" (with a leading
    blank) is stripped before it is compared, so the record matches although
    " /ping" occurs neither in the concatenated nor in the blank-separated
    text; and "gpi" occurs in the concatenation "/pingping" but not in the
    blank-separated text the code searches, so the record does not match. *)
Lemma matches_differs_from_plain_concatenation :
  haystack Demo.ping = "/ping ping  "
  ∧ Py.lower (spec_text Demo.ping) = "/pingping"
  ∧ _matches " /ping" "All" Demo.ping = true
  ∧ spec_matches " /ping" "All" Demo.ping = false
  ∧ Py.contains (Py.lower " /ping") (haystack Demo.ping) = false
  ∧ _matches "gpi" "All" Demo.ping = false
  ∧ spec_matches "gpi" "All" Demo.ping = true.
Proof. repeat split; reflexivity. Qed.

(** On ASCII text lower-casing and stripping commute. *)
Lemma ascii_isspace_lower_char (c : ascii) :
  Py.ascii_isspace (Py.ascii_lower_char c) = Py.ascii_isspace c.
Proof. destruct c as [[] [] [] [] [] [] [] []]; reflexivity. Qed.

Lemma ascii_lstrip_lower (s : string) :
  Py.lstrip_chars Py.ascii_isspace (Py.ascii_lower s)
  = Py.ascii_lower (Py.lstrip_chars Py.ascii_isspace s).
Proof.
  induction s as [|c s IH]; [done|]. cbn.
  rewrite ascii_isspace_lower_char. by destruct (Py.ascii_isspace c).
Qed.

Lemma ascii_rstrip_lower (s : string) :
  Py.rstrip_chars Py.ascii_isspace (Py.ascii_lower s)
  = Py.ascii_lower (Py.rstrip_chars Py.ascii_isspace s).
Proof.
  induction s as [|c s IH]; [done|]. cbn.
  rewrite IH, ascii_isspace_lower_char.
  destruct (Py.rstrip_chars Py.ascii_isspace s); cbn;
    [by destruct (Py.ascii_isspace c) | done].
Qed.

Lemma ascii_lower_strip (s : string) :
  Py.ascii_lower (Py.ascii_strip s) = Py.ascii_strip (Py.ascii_lower s).
Proof.
  unfold Py.ascii_strip, Py.strip_chars.
  by rewrite ascii_lstrip_lower, ascii_rstrip_lower.
Qed.

Lemma query_case_and_blanks_witness :
  _matches "PING" "All" Demo.ping = _matches "ping" "All" Demo.ping
  ∧ filtered "   " "All" Demo.catalog = Demo.catalog.
Proof.
  destruct (query_case_and_blanks (py_str := Py.ascii_text) ascii_lower_strip eq_refl)
    as [H1 H2].
  split; [apply H1 | apply H2]; reflexivity.
Defined.

Lemma present_tags_spec_witness :
  NoDup (present_tags ["Meetings"; "Teams"] Demo.catalog).
Proof.
  apply present_tags_spec.
  apply (bool_decide_unpack _). vm_compute. exact I.
Defined.

Lemma listing_shows_each_once_witness :
  cards ["Meetings"; "Teams"] Demo.catalog ≡ₚ Demo.catalog.
Proof.
  apply listing_shows_each_once.
  apply (bool_decide_unpack _). vm_compute. exact I.
Defined.

Lemma card_has_target_witness :
  ∃ p, view_details_target (by_id_of Demo.catalog ∅) Demo.B = Some p
     ∧ p ∈ omap made_page Demo.catalog
     ∧ page p = PageFn "B".
Proof.
  destruct (card_has_target ["Meetings"] Demo.catalog
              (omap made_page Demo.catalog) (by_id_of Demo.catalog ∅)
              "beta" "POST" Demo.B) as [_ H].
  - reflexivity.
  - vm_compute. left.
  - exact H.
Defined.

(** ** Diagram *)


Section DiagramChecks.

Import Diagram.
Local Open Scope float_scope.


(** C10, the claim as stated fails in binary64 arithmetic.  For a node
    centred at (0,0) with a box of 2^-600 by 2^-600 and a target centred at
    (2^-600, 0) the centres are distinct and the half-extents positive, but
    the product [|dx|·hh] = 2^-1201 is rounded to zero: the horizontal
    branch is taken, its divisor [absDy] is zero and [x] is [NaN].  And for
    a node centred at (2^53, 0), 1 wide, with its target to the right, the
    sum [cx + hw] is rounded back to [cx]: the offset of [x] is 0, not the
    half-width. *)
Lemma underflow_divides_by_zero :
  is_zero (DemoDiagram.tiny - 0) = false
  ∧ Js.gt (DemoDiagram.tiny / 2) 0 = true
  ∧ is_zero (abs (DemoDiagram.tiny - 0) * (DemoDiagram.tiny / 2)) = true
  ∧ Js.gt (abs (DemoDiagram.tiny - 0) * (DemoDiagram.tiny / 2))
          (abs (0 - 0) * (DemoDiagram.tiny / 2)) = false
  ∧ is_zero (abs (0 - 0)) = true
  ∧ is_nan (pt_x (edgePoint 0 0 DemoDiagram.tiny DemoDiagram.tiny DemoDiagram.tiny 0)) = true
  ∧ Js.gt (abs (DemoDiagram.huge * 2 - DemoDiagram.huge) * (1 / 2))
          (abs (0 - 0) * (1 / 2)) = true
  ∧ pt_x (edgePoint DemoDiagram.huge 0 1 1 (DemoDiagram.huge * 2) 0) = DemoDiagram.huge
  ∧ (pt_x (edgePoint DemoDiagram.huge 0 1 1 (DemoDiagram.huge * 2) 0) - DemoDiagram.huge
     =? 1 / 2) = false.
Proof. repeat split; reflexivity. Qed.

Lemma edgePoint_division_safe_witness :
  is_zero (abs (200 - 100)) = false
  ∧ is_nan (pt_x (edgePoint 100 100 40 20 100 100)) = true
  ∧ is_finite
      (pt_x (edgePoint 0 0 DemoDiagram.tiny DemoDiagram.tiny DemoDiagram.tiny 0)) = false.
Proof.
  split; [|split].
  - destruct (edgePoint_division_safe 100 100 40 20 200 100) as (H & _).
    apply H; reflexivity.
  - destruct (edgePoint_division_safe 100 100 40 20 100 100) as (_ & _ & _ & H & _).
    apply H; reflexivity.
  - destruct (edgePoint_division_safe 0 0 DemoDiagram.tiny DemoDiagram.tiny DemoDiagram.tiny 0)
      as (_ & _ & H & _).
    apply H; reflexivity.
Defined.

(** C4, the debounce rule read over every sequence of pointer events
    fails: the pointer leaves the node at 1000 ms and is back at 1100,
    leaves again at 1140 and is back at 1200, each time within the grace
    delay; the callback of the first leave falls due at 1150, finds
    nothing hovered and hides the popup. *)
Lemma stale_timer_hides_early :
  reenters_in_time DemoDiagram.twice_out_and_back = true
  ∧ grace_hides (run DemoDiagram.document DemoDiagram.twice_out_and_back initial) = 1%nat
  ∧ ¬ reentry_never_hides DemoDiagram.document.
Proof.
  split; [reflexivity|]. split; [by vm_compute|].
  intros H. specialize (H DemoDiagram.twice_out_and_back eq_refl).
  vm_compute in H. discriminate H.
Qed.

Lemma hover_intent_witness :
  grace_hides
    (fire_due 5000
       (run DemoDiagram.document [(1000%Z, NodeLeave "n-ipm")]
          (run DemoDiagram.document [(0%Z, NodeEnter "n-ipm")] initial)))
  = S (grace_hides (run DemoDiagram.document [(0%Z, NodeEnter "n-ipm")] initial))
  ∧ grace_hides
      (fire_due 5000
         (run DemoDiagram.document [(1000%Z, PopupLeave "p-ipm")]
            (run DemoDiagram.document
               [(0%Z, NodeEnter "n-ipm"); (500%Z, PopupEnter "p-ipm");
                (600%Z, NodeLeave "n-ipm")] initial)))
    = S (grace_hides
           (run DemoDiagram.document
              [(0%Z, NodeEnter "n-ipm"); (500%Z, PopupEnter "p-ipm");
               (600%Z, NodeLeave "n-ipm")] initial))
  ∧ activePopup
      (fire_due 5000
         (run DemoDiagram.document
            [(1000%Z, NodeLeave "n-ipm"); (1100%Z, PopupEnter "p-ipm")]
            (run DemoDiagram.document [(0%Z, NodeEnter "n-ipm")] initial)))
    = Some "p-ipm".
Proof.
  destruct (hover_intent DemoDiagram.document) as (_ & _ & _ & _ & _ & _ & _ & Hre & Hgone).
  split; [|split].
  - destruct (Hgone (run DemoDiagram.document [(0%Z, NodeEnter "n-ipm")] initial)
                (NodeLeave "n-ipm") "p-ipm" 1000%Z 5000%Z) as (_ & _ & Hc).
    + reflexivity.
    + left. split; [by eexists|]. split; [by eexists | reflexivity].
    + reflexivity.
    + exact Hc.
  - destruct (Hgone (run DemoDiagram.document
                       [(0%Z, NodeEnter "n-ipm"); (500%Z, PopupEnter "p-ipm");
                        (600%Z, NodeLeave "n-ipm")] initial)
                (PopupLeave "p-ipm") "p-ipm" 1000%Z 5000%Z) as (_ & _ & Hc).
    + reflexivity.
    + right. split; [by eexists|]. split; reflexivity.
    + reflexivity.
    + exact Hc.
  - destruct (Hre (run DemoDiagram.document [(0%Z, NodeEnter "n-ipm")] initial)
                (NodeLeave "n-ipm") "n-ipm" "p-ipm" (PopupEnter "p-ipm")
                1000%Z 1100%Z 5000%Z) as (Ha & _ & _).
    + reflexivity.
    + left. by eexists.
    + reflexivity.
    + vm_compute. set_solver.
    + left. by eexists.
    + by right.
    + unfold grace_delay. lia.
    + lia.
    + constructor.
    + exact Ha.
Defined.

Lemma one_popup_at_a_time_witness :
  visible (run DemoDiagram.document
             (DemoDiagram.twice_out_and_back ++ [(1300%Z, NodeEnter "n-ipm")]) initial)
  = {[ "p-ipm" ]}.
Proof.
  destruct (one_popup_at_a_time DemoDiagram.document DemoDiagram.twice_out_and_back)
    as (_ & _ & H).
  by destruct (H 1300%Z "n-ipm" "p-ipm" eq_refl) as [_ Hv].
Defined.

End DiagramChecks.
